(** * Tinkerbell workflow reconciler and test generators

    A shallow embedding of [tink/controllers/workflow/controller.go] and of
    [macGenerator] from [tink/test/utils/generators.go].

    The reconciler talks to two collaborators, the Kubernetes client
    ([client.Client]) and the Tinkerbell workflow client (the Go interface
    [workflowClient]).  Both are modelled as type classes over an abstract
    world state; every call made through them is recorded, in order, in a
    trace.  The reconciler itself is written in a small state-and-trace
    monad and follows the Go text statement by statement. *)

From Stdlib Require Import ZArith Lia.
From Stdlib.Strings Require Import Ascii String Byte.
From stdpp Require Import base strings list gmap.

#[local] Set Warnings "-clear-no-such-hyp".

Open Scope string_scope.
Open Scope Z_scope.

(** ** Go values *)

(** [metav1.StatusReason], the reasons this development tells apart. *)
Inductive StatusReason : Type :=
| StatusReasonNotFound
| StatusReasonConflict
| StatusReasonUnknown.

(** Go [error] values.  [ErrNotFound] is the sentinel [tinkclient.ErrNotFound];
    [StatusError] is an [apierrors.StatusError] with its reason; [Errorf]
    is [fmt.Errorf("<msg>: %w", err)], which wraps [err]. *)
Inductive error : Type :=
| ErrNotFound
| StatusError (reason : StatusReason)
| ErrorString (msg : string)
| Errorf (msg : string) (err : error).

(** [errors.Is(err, tinkclient.ErrNotFound)]: follows the chain of wrapped
    errors and compares each with the sentinel. *)
Fixpoint errors_Is_ErrNotFound (err : error) : bool :=
  match err with
  | ErrNotFound => true
  | Errorf _ inner => errors_Is_ErrNotFound inner
  | _ => false
  end.

(** [apierrors.IsNotFound(err)]: the reason of an API status error. *)
Definition apierrors_IsNotFound (err : error) : bool :=
  match err with
  | StatusError StatusReasonNotFound => true
  | _ => false
  end.

(** A Go pair [(T, error)]. *)
Inductive result (A : Type) : Type :=
| Ok (a : A)
| Err (e : error).
Arguments Ok {A} a.
Arguments Err {A} e.

(** [time.Duration] counts nanoseconds. *)
Definition Duration : Type := Z.
Definition time_Second : Duration := 1000000000.
Definition time_Minute : Duration := 60 * time_Second.

(** [ctrl.Result]. *)
Record Result : Type := mkResult {
  Requeue : bool;
  RequeueAfter : Duration
}.

(** The zero value [ctrl.Result{}]. *)
Definition Result_zero : Result := {| Requeue := false; RequeueAfter := 0 |}.

(** ** Tinkerbell protocol values ([tink/protos/workflow]) *)

Inductive State : Type :=
| State_STATE_PENDING
| State_STATE_RUNNING
| State_STATE_FAILED
| State_STATE_TIMEOUT
| State_STATE_SUCCESS.

#[global] Instance State_eq_dec : EqDecision State.
Proof. solve_decision. Defined.

Definition State_String (s : State) : string :=
  match s with
  | State_STATE_PENDING => "STATE_PENDING"
  | State_STATE_RUNNING => "STATE_RUNNING"
  | State_STATE_FAILED => "STATE_FAILED"
  | State_STATE_TIMEOUT => "STATE_TIMEOUT"
  | State_STATE_SUCCESS => "STATE_SUCCESS"
  end.

(** [workflow.Workflow], through the two getters the reconciler uses. *)
Record pbWorkflow : Type := mkPbWorkflow {
  GetId : string;
  GetData : string
}.

(** [workflow.WorkflowAction]. *)
Record WorkflowAction : Type := mkWorkflowAction {
  GetName : string;
  GetTaskName : string;
  GetImage : string;
  GetTimeout : Z;
  GetCommand : list string;
  GetOnTimeout : list string;
  GetOnFailure : list string;
  GetWorkerId : string;
  GetVolumes : list string;
  GetEnvironment : list string
}.

(** [workflow.WorkflowActionStatus]. *)
Record WorkflowActionStatus : Type := mkWorkflowActionStatus {
  ev_GetActionName : string;
  ev_GetTaskName : string;
  ev_GetActionStatus : State;
  ev_GetSeconds : Z;
  ev_GetMessage : string;
  ev_GetWorkerId : string;
  ev_GetCreatedAt : Z
}.

(** ** Kubernetes resources ([tink/api/v1alpha1]) *)

Record Action : Type := mkAction {
  Action_Name : string;
  Action_TaskName : string;
  Action_Image : string;
  Action_Timeout : Z;
  Action_Command : list string;
  Action_OnTimeout : list string;
  Action_OnFailure : list string;
  Action_WorkerID : string;
  Action_Volumes : list string;
  Action_Environment : list string
}.

Record Event : Type := mkEvent {
  Event_ActionName : string;
  Event_TaskName : string;
  Event_ActionStatus : string;
  Event_Seconds : Z;
  Event_Message : string;
  Event_WorkerID : string;
  Event_CreatedAt : Z
}.

Record WorkflowStatus : Type := mkWorkflowStatus {
  Status_State : string;
  Status_Data : string;
  Status_Metadata : string;
  Status_Actions : list Action;
  Status_Events : list Event
}.

(** Modelled from the spec: the declaration of the [Workflow] resource is not
    among the sources.  The record has what the spec's data model lists: the
    name, the two references of the spec, the [remoteID] annotation read by
    [TinkID] and written by [SetTinkID], the status, the deletion timestamp
    (absent, or a time) and the list of finalizers. *)
Record Workflow : Type := mkWorkflow {
  Name : string;
  DeletionTimestamp : option Z;
  Finalizers : list string;
  remoteID : string;
  Spec_HardwareRef : string;
  Spec_TemplateRef : string;
  Status : WorkflowStatus
}.

(** Modelled from the spec: [Hardware] exposes a stable external id. *)
Record Hardware : Type := mkHardware {
  Hardware_Spec_ID : string
}.

(** Modelled from the spec: [Template] exposes a stable external id. *)
Record Template : Type := mkTemplate {
  Template_TinkID : string
}.

(** Modelled from the spec: [tinkv1alpha1.WorkflowFinalizer], the
    well-known token of the finalizer list.  Its text is not among the
    sources; nothing below depends on it. *)
Definition WorkflowFinalizer : string := "workflow.tinkerbell.org".

(** Modelled from the spec: [w.TinkID()] reads the [remoteID] annotation,
    empty until a remote execution was created. *)
Definition TinkID (w : Workflow) : string := remoteID w.

(** Modelled from the spec: [w.SetTinkID(id)] writes the [remoteID]
    annotation. *)
Definition SetTinkID (id : string) (w : Workflow) : Workflow :=
  {| Name := Name w; DeletionTimestamp := DeletionTimestamp w;
     Finalizers := Finalizers w; remoteID := id;
     Spec_HardwareRef := Spec_HardwareRef w;
     Spec_TemplateRef := Spec_TemplateRef w; Status := Status w |}.

Definition SetFinalizers (f : list string) (w : Workflow) : Workflow :=
  {| Name := Name w; DeletionTimestamp := DeletionTimestamp w;
     Finalizers := f; remoteID := remoteID w;
     Spec_HardwareRef := Spec_HardwareRef w;
     Spec_TemplateRef := Spec_TemplateRef w; Status := Status w |}.

Definition SetStatus (s : WorkflowStatus) (w : Workflow) : Workflow :=
  {| Name := Name w; DeletionTimestamp := DeletionTimestamp w;
     Finalizers := Finalizers w; remoteID := remoteID w;
     Spec_HardwareRef := Spec_HardwareRef w;
     Spec_TemplateRef := Spec_TemplateRef w; Status := s |}.

(** Assignments to the fields of [w.Status]. *)
Definition SetStatusData (d : string) (w : Workflow) : Workflow :=
  SetStatus {| Status_State := Status_State (Status w); Status_Data := d;
               Status_Metadata := Status_Metadata (Status w);
               Status_Actions := Status_Actions (Status w);
               Status_Events := Status_Events (Status w) |} w.

Definition SetStatusMetadata (m : string) (w : Workflow) : Workflow :=
  SetStatus {| Status_State := Status_State (Status w);
               Status_Data := Status_Data (Status w);
               Status_Metadata := m;
               Status_Actions := Status_Actions (Status w);
               Status_Events := Status_Events (Status w) |} w.

Definition SetStatusActions (a : list Action) (w : Workflow) : Workflow :=
  SetStatus {| Status_State := Status_State (Status w);
               Status_Data := Status_Data (Status w);
               Status_Metadata := Status_Metadata (Status w);
               Status_Actions := a;
               Status_Events := Status_Events (Status w) |} w.

Definition SetStatusEvents (e : list Event) (w : Workflow) : Workflow :=
  SetStatus {| Status_State := Status_State (Status w);
               Status_Data := Status_Data (Status w);
               Status_Metadata := Status_Metadata (Status w);
               Status_Actions := Status_Actions (Status w);
               Status_Events := e |} w.

Definition SetStatusState (s : string) (w : Workflow) : Workflow :=
  SetStatus {| Status_State := s;
               Status_Data := Status_Data (Status w);
               Status_Metadata := Status_Metadata (Status w);
               Status_Actions := Status_Actions (Status w);
               Status_Events := Status_Events (Status w) |} w.

(** [workflow.DeletionTimestamp.IsZero()]: a nil pointer or the zero time
    (times count from Go's zero time). *)
Definition DeletionTimestamp_IsZero (w : Workflow) : bool :=
  match DeletionTimestamp w with
  | None => true
  | Some t => bool_decide (t = 0)
  end.

(** [controllerutil.ContainsFinalizer]. *)
Definition ContainsFinalizer (w : Workflow) (finalizer : string) : bool :=
  bool_decide (finalizer ∈ Finalizers w).

(** [controllerutil.AddFinalizer]: appends the token unless it is there. *)
Definition AddFinalizer (w : Workflow) (finalizer : string) : Workflow :=
  if ContainsFinalizer w finalizer then w
  else SetFinalizers (Finalizers w ++ [finalizer])%list w.

(** [controllerutil.RemoveFinalizer]: drops every occurrence of the token. *)
Definition RemoveFinalizer (w : Workflow) (finalizer : string) : Workflow :=
  SetFinalizers (filter (λ e, e ≠ finalizer) (Finalizers w)) w.

Record NamespacedName : Type := mkNamespacedName {
  Namespace : string;
  nn_Name : string
}.

(** [ctrl.Request]. *)
Record Request : Type := mkRequest {
  req_NamespacedName : NamespacedName
}.

(** [client.ObjectKey{Name: name}]. *)
Definition ObjectKey_of_name (name : string) : NamespacedName :=
  {| Namespace := ""; nn_Name := name |}.

(** ** The collaborators *)

(** Every call made to a collaborator or to the logger, with its arguments
    and what it returned. *)
Inductive Call : Type :=
| CallGetWorkflow (key : NamespacedName) (r : result Workflow)
| CallGetHardware (key : NamespacedName) (r : result Hardware)
| CallGetTemplate (key : NamespacedName) (r : result Template)
| CallPatch (obj base : Workflow) (err : option error)
| CallStatusPatch (obj base : Workflow) (err : option error)
| CallTinkGet (id : string) (r : result pbWorkflow)
| CallTinkCreate (templateID hardwareID : string) (r : result string)
| CallTinkDelete (id : string) (err : option error)
| CallTinkGetMetadata (id : string) (r : result (list Byte.byte))
| CallTinkGetActions (id : string) (r : result (list WorkflowAction))
| CallTinkGetEvents (id : string) (r : result (list WorkflowActionStatus))
| CallTinkGetState (id : string) (r : result State)
| CallLogError (err : error) (msg : string).

(** [client.Client], the resource store, over a world state [W].  [Patch]
    and [Status().Patch] take the object and the base of the merge patch
    ([client.MergeFrom(base)]); the object is left as it was sent. *)
Class Client (W : Type) : Type := {
  Client_GetWorkflow : NamespacedName → W → result Workflow * W;
  Client_GetHardware : NamespacedName → W → result Hardware * W;
  Client_GetTemplate : NamespacedName → W → result Template * W;
  Client_Patch : Workflow → Workflow → W → option error * W;
  Client_StatusPatch : Workflow → Workflow → W → option error * W
}.

(** The Go interface [workflowClient]. *)
Class workflowClient (W : Type) : Type := {
  WorkflowClient_Get : string → W → result pbWorkflow * W;
  WorkflowClient_Create : string → string → W → result string * W;
  WorkflowClient_Delete : string → W → option error * W;
  WorkflowClient_GetMetadata : string → W → result (list Byte.byte) * W;
  WorkflowClient_GetActions : string → W → result (list WorkflowAction) * W;
  WorkflowClient_GetEvents :
    string → W → result (list WorkflowActionStatus) * W;
  WorkflowClient_GetState : string → W → result State * W
}.

(** ** The monad: world state threaded through, calls written to a trace *)

Definition M (W A : Type) : Type := W → A * W * list Call.

#[global] Instance M_ret {W} : MRet (M W) :=
  λ A (a : A) (w : W), (a, w, []).

#[global] Instance M_bind {W} : MBind (M W) :=
  λ A B (k : A → M W B) (m : M W A) (w : W),
    let '(a, w1, t1) := m w in
    let '(b, w2, t2) := k a w1 in
    (b, w2, (t1 ++ t2)%list).

(** A call to a collaborator: run it on the world and record it. *)
Definition call {W A} (op : W → A * W) (ev : A → Call) : M W A :=
  λ w, let '(a, w') := op w in (a, w', [ev a]).

(** [logger.Error(err, msg)]. *)
Definition logger_Error {W} (err : error) (msg : string) : M W unit :=
  λ w, (tt, w, [CallLogError err msg]).

Definition outcome {W A} (x : A * W * list Call) : A := x.1.1.
Definition world_after {W A} (x : A * W * list Call) : W := x.1.2.
Definition trace {W A} (x : A * W * list Call) : list Call := x.2.

Section Reconciler.
Context {W : Type} `{!Client W} `{!workflowClient W}.

Definition r_Get (key : NamespacedName) : M W (result Workflow) :=
  call (Client_GetWorkflow key) (CallGetWorkflow key).
Definition r_GetHardware (key : NamespacedName) : M W (result Hardware) :=
  call (Client_GetHardware key) (CallGetHardware key).
Definition r_GetTemplate (key : NamespacedName) : M W (result Template) :=
  call (Client_GetTemplate key) (CallGetTemplate key).
Definition r_Patch (obj base : Workflow) : M W (option error) :=
  call (Client_Patch obj base) (CallPatch obj base).
Definition r_Status_Patch (obj base : Workflow) : M W (option error) :=
  call (Client_StatusPatch obj base) (CallStatusPatch obj base).

Definition wc_Get (id : string) : M W (result pbWorkflow) :=
  call (WorkflowClient_Get id) (CallTinkGet id).
Definition wc_Create (templateID hardwareID : string) : M W (result string) :=
  call (WorkflowClient_Create templateID hardwareID)
       (CallTinkCreate templateID hardwareID).
Definition wc_Delete (id : string) : M W (option error) :=
  call (WorkflowClient_Delete id) (CallTinkDelete id).
Definition wc_GetMetadata (id : string) : M W (result (list Byte.byte)) :=
  call (WorkflowClient_GetMetadata id) (CallTinkGetMetadata id).
Definition wc_GetActions (id : string) : M W (result (list WorkflowAction)) :=
  call (WorkflowClient_GetActions id) (CallTinkGetActions id).
Definition wc_GetEvents (id : string)
  : M W (result (list WorkflowActionStatus)) :=
  call (WorkflowClient_GetEvents id) (CallTinkGetEvents id).
Definition wc_GetState (id : string) : M W (result State) :=
  call (WorkflowClient_GetState id) (CallTinkGetState id).

(** Modelled from the spec: [common.EnsureFinalizer] is not among the
    sources.  "Ensure the finalizer marker is present (idempotent add);
    persist before proceeding if it was missing."  It returns the object
    with the marker and the error of the patch, if any. *)
Definition EnsureFinalizer (obj : Workflow) (finalizer : string)
  : M W (Workflow * option error) :=
  if ContainsFinalizer obj finalizer then mret (obj, None)
  else
    let patch := obj in
    let obj := AddFinalizer obj finalizer in
    err ← r_Patch obj patch;
    mret (obj, err).

(** The loop of [reconcileStatus] over the fetched actions. *)
Definition statusAction (action : WorkflowAction) : Action :=
  {| Action_Name := GetName action;
     Action_TaskName := GetTaskName action;
     Action_Image := GetImage action;
     Action_Timeout := GetTimeout action;
     Action_Command := GetCommand action;
     Action_OnTimeout := GetOnTimeout action;
     Action_OnFailure := GetOnFailure action;
     Action_WorkerID := GetWorkerId action;
     Action_Volumes := GetVolumes action;
     Action_Environment := GetEnvironment action |}.

(** The loop of [reconcileStatus] over the fetched events. *)
Definition statusEvent (event : WorkflowActionStatus) : Event :=
  {| Event_ActionName := ev_GetActionName event;
     Event_TaskName := ev_GetTaskName event;
     Event_ActionStatus := State_String (ev_GetActionStatus event);
     Event_Seconds := ev_GetSeconds event;
     Event_Message := ev_GetMessage event;
     Event_WorkerID := ev_GetWorkerId event;
     Event_CreatedAt := ev_GetCreatedAt event |}.

(** The body of [reconcileStatus], without the deferred patch.  It
    returns the object [w] as the body left it, for the deferred
    function to patch, next to the values the Go function returns. *)
Definition reconcileStatus_body (w : Workflow) (tinkWorkflow : pbWorkflow)
  : M W (Workflow * (Result * option error)) :=
  let w := SetStatusData (GetData tinkWorkflow) w in
  md ← wc_GetMetadata (GetId tinkWorkflow);
  match md with
  | Err err =>
      _ ← logger_Error err "Failed to get metadata for workflow";
      mret (w, (Result_zero,
                Some (Errorf "failed to get metadata for workflow" err)))
  | Ok md =>
  let w := SetStatusMetadata (String.string_of_list_byte md) w in
  actions ← wc_GetActions (GetId tinkWorkflow);
  match actions with
  | Err err =>
      _ ← logger_Error err "Failed to get actions for workflow";
      mret (w, (Result_zero,
                Some (Errorf "failed to get actions for workflow" err)))
  | Ok actions =>
  let statusActions := statusAction <$> actions in
  let w := SetStatusActions statusActions w in
  events ← wc_GetEvents (GetId tinkWorkflow);
  match events with
  | Err err =>
      _ ← logger_Error err "Failed to get events for workflow";
      mret (w, (Result_zero,
                Some (Errorf "failed to get events for workflow" err)))
  | Ok events =>
  let statusEvents := statusEvent <$> events in
  let w := SetStatusEvents statusEvents w in
  state ← wc_GetState (GetId tinkWorkflow);
  match state with
  | Err err =>
      _ ← logger_Error err "Failed to get state for workflow";
      mret (w, (Result_zero,
                Some (Errorf "failed to get state for workflow" err)))
  | Ok state =>
  let w := SetStatusState (State_String state) w in
  if bool_decide (state ≠ State_STATE_SUCCESS)
  then mret (w, ({| Requeue := false; RequeueAfter := 1 * time_Minute |},
                 None))
  else mret (w, (Result_zero, None))
  end end end end.

(** [reconcileStatus]: the body, then the deferred function, which
    patches the status with whatever the body gathered and only logs a
    failure; the returned values are those of the body. *)
Definition reconcileStatus (w : Workflow) (tinkWorkflow : pbWorkflow)
  : M W (Result * option error) :=
  let patch := w in
  '(w, ret) ← reconcileStatus_body w tinkWorkflow;
  err ← r_Status_Patch w patch;
  match err with
  | Some err =>
      _ ← logger_Error err "Failed to patch workflow status";
      mret ret
  | None => mret ret
  end.

Definition createWorkflow (w : Workflow) : M W (result string) :=
  let hwKey := ObjectKey_of_name (Spec_HardwareRef w) in
  hw ← r_GetHardware hwKey;
  match hw with
  | Err err =>
      _ ← logger_Error err "Failed to get hardware";
      mret (Err (Errorf "failed to get hardware" err))
  | Ok hw =>
  let tKey := ObjectKey_of_name (Spec_TemplateRef w) in
  t ← r_GetTemplate tKey;
  match t with
  | Err err =>
      _ ← logger_Error err "Failed to get template";
      mret (Err (Errorf "failed to get template" err))
  | Ok t =>
  id ← wc_Create (Template_TinkID t) (Hardware_Spec_ID hw);
  match id with
  | Err err =>
      _ ← logger_Error err "Failed to create workflow";
      mret (Err (Errorf "failed to create workflow" err))
  | Ok id => mret (Ok id)
  end end end.

(** The rest of [reconcileNormal] once [workflowID] is known. *)
Definition reconcileNormal_with (w : Workflow) (workflowID : string)
  : M W (Result * option error) :=
  tinkWorkflow ← wc_Get workflowID;
  match tinkWorkflow with
  | Err err => mret (Result_zero, Some (Errorf "failed to get workflow" err))
  | Ok tinkWorkflow =>
  let patch := w in
  let w := SetTinkID workflowID w in
  err ← r_Patch w patch;
  match err with
  | Some err =>
      _ ← logger_Error err "Failed to patch workflow";
      mret (Result_zero, Some (Errorf "failed to patch workflow" err))
  | None => reconcileStatus w tinkWorkflow
  end end.

Definition reconcileNormal (w : Workflow) : M W (Result * option error) :=
  let workflowID := TinkID w in
  if bool_decide (workflowID = "")
  then
    id ← createWorkflow w;
    match id with
    | Err err => mret (Result_zero, Some err)
    | Ok id => reconcileNormal_with w id
    end
  else reconcileNormal_with w workflowID.

Definition reconcileDelete (w : Workflow) : M W (Result * option error) :=
  let patch := w in
  let id := TinkID w in
  let finish :=
    let w := RemoveFinalizer w WorkflowFinalizer in
    err ← r_Patch w patch;
    match err with
    | Some err =>
        _ ← logger_Error err "Failed to patch workflow";
        mret (Result_zero, Some (Errorf "failed to patch workflow" err))
    | None => mret (Result_zero, None)
    end in
  if bool_decide (id ≠ "")
  then
    err ← wc_Delete id;
    match err with
    | Some err =>
        if negb (errors_Is_ErrNotFound err)
        then
          _ ← logger_Error err "Failed to delete workflow from Tinkerbell";
          mret (Result_zero,
                Some (Errorf "failed to delete workflow from Tinkerbell" err))
        else finish
    | None => finish
    end
  else finish.

Definition Reconcile (req : Request) : M W (Result * option error) :=
  workflow ← r_Get (req_NamespacedName req);
  match workflow with
  | Err err =>
      if apierrors_IsNotFound err then mret (Result_zero, None)
      else
        _ ← logger_Error err "Failed to get workflow";
        mret (Result_zero, Some (Errorf "failed to get workflow" err))
  | Ok workflow =>
  '(workflow, err) ← EnsureFinalizer workflow WorkflowFinalizer;
  match err with
  | Some err =>
      mret (Result_zero,
            Some (Errorf "failed to ensure finalizer on workflow" err))
  | None =>
      if negb (DeletionTimestamp_IsZero workflow)
      then reconcileDelete workflow
      else reconcileNormal workflow
  end end.

End Reconciler.

(** ** The MAC address generator ([tink/test/utils/generators.go]) *)

Module Generators.

(** [hexDigit] of package [net]. *)
Definition hexDigit : string := "0123456789abcdef".

(** [hexDigit[i]]. *)
Definition hexDigit_at (i : Z) : ascii :=
  default "0"%char (String.get (Z.to_nat i) hexDigit).

(** The two digits [hexDigit[b>>4]], [hexDigit[b&0xF]] of one octet. *)
Definition hex_octet (b : Z) (rest : string) : string :=
  String (hexDigit_at (Z.shiftr b 4)) (String (hexDigit_at (Z.land b 15)) rest).

(** [net.HardwareAddr.String]: the octets in hexadecimal, a colon before
    every octet but the first; the empty string for no octet. *)
Fixpoint HardwareAddr_String (a : list Z) : string :=
  match a with
  | [] => ""
  | [b] => hex_octet b ""
  | b :: (_ :: _) as rest => hex_octet b (String ":"%char (HardwareAddr_String rest))
  end.

(** What one [rand.Read(mac)] on the six-octet slice does: it fails, or it
    fills the slice with six octets. *)
Inductive rand_Read : Type :=
| ReadFails (err : error)
| ReadFills (b0 b1 b2 b3 b4 b5 : Z).

(** [macGenerator]: the set of addresses handed out.  The mutex is held
    for the whole of [Get]; calls are modelled one after the other. *)
Record macGenerator : Type := mkMacGenerator {
  addresses : gset string
}.

(** [mac[0] &= ^byte(1); mac[0] |= byte(2)]. *)
Definition unicast_local (b0 : Z) : Z := Z.lor (Z.land b0 254) 2.

(** [macGenerator.Get].  The loop draws from the successive outcomes [rnd]
    of [rand.Read] and returns at the first failure or the first address
    that was not handed out before, giving back the outcomes it has not
    used; [None] when the outcomes run out before the loop returns. *)
Fixpoint Get (rnd : list rand_Read) (m : macGenerator)
  : option (result string * macGenerator * list rand_Read) :=
  match rnd with
  | [] => None
  | ReadFails err :: rnd =>
      Some (Err (Errorf "failed to generate random mac" err), m, rnd)
  | ReadFills b0 b1 b2 b3 b4 b5 :: rnd =>
      let mac := [unicast_local b0; b1; b2; b3; b4; b5] in
      let key := HardwareAddr_String mac in
      if bool_decide (key ∈ addresses m) then Get rnd m
      else Some (Ok key, {| addresses := {[key]} ∪ addresses m |}, rnd)
  end.

(** [n] calls of [Get] on the same generator, one after the other, with
    what each returned. *)
Fixpoint Get_times (n : nat) (rnd : list rand_Read) (m : macGenerator)
  : option (list (result string) * macGenerator * list rand_Read) :=
  match n with
  | O => Some ([], m, rnd)
  | S n =>
      match Get rnd m with
      | None => None
      | Some (r, m, rnd) =>
          match Get_times n rnd m with
          | None => None
          | Some (rs, m, rnd) => Some (r :: rs, m, rnd)
          end
      end
  end.

(** The addresses among the values returned. *)
Definition returned (rs : list (result string)) : list string :=
  omap (λ r, match r with Ok key => Some key | Err _ => None end) rs.

(** An address as [Get] hands it out: the text of six octets, the first
    with bit 0 (multicast) clear and bit 1 (locally administered) set, so
    that its low hexadecimal digit is one of 2, 6, a, e. *)
Definition unicast_local_mac (key : string) : Prop :=
  ∃ b0 b1 b2 b3 b4 b5,
    key = HardwareAddr_String [b0; b1; b2; b3; b4; b5]
    ∧ 0 ≤ b0 < 256
    ∧ Z.testbit b0 0 = false
    ∧ Z.testbit b0 1 = true
    ∧ ∃ d, String.get 1 key = Some d ∧ d ∈ ["2"; "6"; "a"; "e"]%char.

(** [MACGenerator], the instance of the package: nothing handed out. *)
Definition MACGenerator : macGenerator := {| addresses := ∅ |}.

(** *** Addresses and hardware *)

(** How a call ends: it returns, it panics (an index out of range), or
    the outcomes of [crypto/rand] provided to the model have run out. *)
Inductive exec (A : Type) : Type :=
| Returns (a : A)
| Panics
| OutOfEntropy.
Arguments Returns {A} a.
Arguments Panics {A}.
Arguments OutOfEntropy {A}.

#[global] Instance exec_ret : MRet exec := λ A a, Returns a.

#[global] Instance exec_bind : MBind exec :=
  λ A B (k : A → exec B) (m : exec A),
    match m with
    | Returns a => k a
    | Panics => Panics
    | OutOfEntropy => OutOfEntropy
    end.

(** [net.IPNet]: the network address and the mask, as octets. *)
Record IPNet : Type := mkIPNet {
  IPNet_IP : list Z;
  IPNet_Mask : list Z
}.

(** The functions of package [net] that the address allocator calls:
    [net.ParseCIDR] (its second result), [net.ParseIP] (the nil slice for a
    text that is no address) and [net.IP.String]. *)
Class NetLib : Type := {
  ParseCIDR : string → result IPNet;
  ParseIP : string → list Z;
  IP_String : list Z → string
}.

(** [testCIDRs]. *)
Definition testCIDRs : list string :=
  ["192.0.2.0/24"; "198.51.100.0/24"; "203.0.113.0/24"].

(** [ipGetter]: the last address handed out for each CIDR. *)
Record ipGetter : Type := mkIpGetter {
  ip_addresses : gmap string string
}.

(** [IPGetter], the instance of the package. *)
Definition IPGetter : ipGetter := {| ip_addresses := ∅ |}.

(** [ip[len(ip)-1]++] on a slice of octets: the last octet goes up by one
    and wraps at 256; on the empty slice the index is out of range. *)
Definition incr_last (ip : list Z) : exec (list Z) :=
  match ip with
  | [] => Panics
  | _ :: _ => Returns (alter (λ b, (b + 1) mod 256) (pred (length ip)) ip)
  end.

(** [ipGetter.nextAddressFromCIDR]: the address, the netmask and the
    gateway, or the error. *)
Definition nextAddressFromCIDR `{NetLib} (cidr : string) (i : ipGetter)
  : exec (result (string * string * string) * ipGetter) :=
  match ParseCIDR cidr with
  | Err err => Returns (Err (Errorf "failed to parse cidr" err), i)
  | Ok network =>
      let netMask := IP_String (IPNet_Mask network) in
      gw ← incr_last (IPNet_IP network);
      let gateway := IP_String gw in
      let lastAddress := default gateway (ip_addresses i !! cidr) in
      nextIP ← incr_last (ParseIP lastAddress);
      let ip := IP_String nextIP in
      Returns (Ok (ip, netMask, gateway),
               {| ip_addresses := <[cidr := ip]> (ip_addresses i) |})
  end.

(** [n] calls of [nextAddressFromCIDR] for the same CIDR, one after the
    other, with what each returned. *)
Fixpoint nextAddressFromCIDR_times `{NetLib} (n : nat) (cidr : string)
    (i : ipGetter)
  : exec (list (result (string * string * string)) * ipGetter) :=
  match n with
  | O => Returns ([], i)
  | S n =>
      '(r, i) ← nextAddressFromCIDR cidr i;
      '(rs, i) ← nextAddressFromCIDR_times n cidr i;
      Returns (r :: rs, i)
  end.

(** What one [rand.Int(rand.Reader, max)] does. *)
Inductive rand_Int : Type :=
| IntFails (err : error)
| IntReturns (i : Z).

(** The variables of the package that the generators of hardware work
    on, and the outcomes of [crypto/rand] still to come. *)
Record generators : Type := mkGenerators {
  gen_IPGetter : ipGetter;
  gen_MACGenerator : macGenerator;
  gen_ints : list rand_Int;
  gen_reads : list rand_Read
}.

(** [hardware.Hardware_Network_Interface] as [GenerateHardwareInterface]
    fills it: the DHCP MAC address and the address, netmask and gateway
    of the DHCP IP. *)
Record Interface : Type := mkInterface {
  Dhcp_Mac : string;
  Dhcp_Ip_Address : string;
  Dhcp_Ip_Netmask : string;
  Dhcp_Ip_Gateway : string
}.

(** [testCIDRs[i]] for an [int64] index. *)
Definition testCIDRs_at (i : Z) : exec string :=
  if bool_decide (0 ≤ i)
  then match testCIDRs !! Z.to_nat i with
       | Some cidr => Returns cidr
       | None => Panics
       end
  else Panics.

(** The rest of [GenerateHardwareInterface] once the CIDR is chosen. *)
Definition GenerateHardwareInterface_with `{NetLib} (cidr : string)
    (g : generators) : exec (result Interface * generators) :=
  '(r, ipg) ← nextAddressFromCIDR cidr (gen_IPGetter g);
  let g := mkGenerators ipg (gen_MACGenerator g) (gen_ints g) (gen_reads g) in
  match r with
  | Err err => Returns (Err err, g)
  | Ok (ip, netmask, gateway) =>
      match Get (gen_reads g) (gen_MACGenerator g) with
      | None => OutOfEntropy
      | Some (r, m, reads) =>
          let g := mkGenerators (gen_IPGetter g) m (gen_ints g) reads in
          match r with
          | Err err => Returns (Err err, g)
          | Ok mac =>
              Returns (Ok {| Dhcp_Mac := mac; Dhcp_Ip_Address := ip;
                             Dhcp_Ip_Netmask := netmask;
                             Dhcp_Ip_Gateway := gateway |}, g)
          end
      end
  end.

(** [GenerateHardwareInterface]. *)
Definition GenerateHardwareInterface `{NetLib} (cidr : string)
    (g : generators) : exec (result Interface * generators) :=
  if bool_decide (cidr = "")
  then match gen_ints g with
       | [] => OutOfEntropy
       | IntFails err :: ints =>
           Returns (Err (Errorf "failed to get random index for cidr" err),
                    mkGenerators (gen_IPGetter g) (gen_MACGenerator g) ints
                      (gen_reads g))
       | IntReturns i :: ints =>
           cidr ← testCIDRs_at i;
           GenerateHardwareInterface_with cidr
             (mkGenerators (gen_IPGetter g) (gen_MACGenerator g) ints
                (gen_reads g))
       end
  else GenerateHardwareInterface_with cidr g.

(** The loop of [GenerateHardware]: [count] rounds are left, [i] is the
    index of the next one and [interfaces] is [hw.Network.Interfaces]. *)
Fixpoint GenerateHardware_loop `{NetLib} (count : nat) (i : Z)
    (interfaces : list Interface) (g : generators)
  : exec (result (list Interface) * generators) :=
  match count with
  | O => Returns (Ok interfaces, g)
  | S count =>
      cidr ← testCIDRs_at (i mod Z.of_nat (length testCIDRs));
      '(r, g) ← GenerateHardwareInterface cidr g;
      match r with
      | Err err => Returns (Err err, g)
      | Ok ni => GenerateHardware_loop count (i + 1) (interfaces ++ [ni])%list g
      end
  end.

(** [GenerateHardware]: the interfaces of the hardware, or the error. *)
Definition GenerateHardware `{NetLib} (numInterfaces : Z) (g : generators)
  : exec (result (list Interface) * generators) :=
  GenerateHardware_loop (Z.to_nat numInterfaces) 0 [] g.

(** The address that a read which fills the slice stands for. *)
Definition drawn (b0 b1 b2 b3 b4 b5 : Z) : string :=
  HardwareAddr_String [unicast_local b0; b1; b2; b3; b4; b5].

(** A read whose address was handed out before: [Get] draws again. *)
Definition collides (m : macGenerator) (r : rand_Read) : Prop :=
  match r with
  | ReadFails _ => False
  | ReadFills b0 b1 b2 b3 b4 b5 => drawn b0 b1 b2 b3 b4 b5 ∈ addresses m
  end.

(** What [Get] returns, and the generator it leaves, on a read that ends
    its loop. *)
Definition settles (m : macGenerator) (r : rand_Read)
  : result string * macGenerator :=
  match r with
  | ReadFails err => (Err (Errorf "failed to generate random mac" err), m)
  | ReadFills b0 b1 b2 b3 b4 b5 =>
      (Ok (drawn b0 b1 b2 b3 b4 b5),
       {| addresses := {[drawn b0 b1 b2 b3 b4 b5]} ∪ addresses m |})
  end.

(** The places of the colons in the text of a six-octet address. *)
Definition colon_places : list nat := [2; 5; 8; 11; 14]%nat.

(** The four-octet addresses: IPv4. *)
Definition is_v4 (ip : list Z) : Prop :=
  length ip = 4%nat ∧ Forall (λ b, 0 ≤ b < 256) ip.

(** [v4InV6Prefix] of package [net]. *)
Definition v4InV6Prefix : list Z := [0; 0; 0; 0; 0; 0; 0; 0; 0; 0; 255; 255].

(** What the allocator relies on in package [net] for IPv4: the text of an
    address parses to its sixteen-octet form, whose text is that of the
    four octets. *)
Class NetLibIPv4 `{NetLib} : Prop := {
  ParseIP_String : ∀ ip, is_v4 ip → ParseIP (IP_String ip) = (v4InV6Prefix ++ ip)%list;
  String_To16 : ∀ ip, is_v4 ip → IP_String (v4InV6Prefix ++ ip)%list = IP_String ip
}.

End Generators.

(** ** Dotted decimal

    An instance of [NetLib] for IPv4, to run the allocator on: addresses
    in dotted decimal, and [ParseCIDR] defined on the three test CIDRs. *)
Module Dotted.
Import Generators.

Definition digit (n : Z) : ascii := ascii_of_nat (48 + Z.to_nat n).

(** The decimal text of an octet. *)
Definition octet (b : Z) (rest : string) : string :=
  if bool_decide (b < 10) then String (digit b) rest
  else if bool_decide (b < 100)
       then String (digit (b / 10)) (String (digit (b mod 10)) rest)
       else String (digit (b / 100))
              (String (digit (b / 10 mod 10)) (String (digit (b mod 10)) rest)).

Definition dotted (a b c d : Z) : string :=
  octet a (String "." (octet b (String "." (octet c (String "." (octet d "")))))).

Definition to_string (ip : list Z) : string :=
  match ip with
  | [a; b; c; d] => dotted a b c d
  | _ =>
      match ip with
      | [0; 0; 0; 0; 0; 0; 0; 0; 0; 0; 255; 255; a; b; c; d] => dotted a b c d
      | _ => "?"
      end
  end.

(** The octets of a dotted text: [cur] is the octet being read, [acc]
    the octets read; the empty list for a text that is no address. *)
Fixpoint octets (s : string) (cur : option Z) (acc : list Z) : list Z :=
  match s with
  | EmptyString =>
      match cur with
      | Some n => (acc ++ [n])%list
      | None => []
      end
  | String c s =>
      if bool_decide (c = "."%char)
      then match cur with
           | Some n => octets s None (acc ++ [n])%list
           | None => []
           end
      else
        let n := Z.of_nat (nat_of_ascii c) - 48 in
        if bool_decide (0 ≤ n < 10)
        then octets s (Some (10 * default 0 cur + n)) acc
        else []
  end.

Definition parse (s : string) : list Z :=
  let ip := octets s None [] in
  if bool_decide (length ip = 4%nat ∧ Forall (λ b, 0 ≤ b < 256) ip)
  then (v4InV6Prefix ++ ip)%list
  else [].

Definition mask24 : list Z := [255; 255; 255; 0].

Definition parse_cidr (cidr : string) : result IPNet :=
  if bool_decide (cidr = "192.0.2.0/24")
  then Ok {| IPNet_IP := [192; 0; 2; 0]; IPNet_Mask := mask24 |}
  else if bool_decide (cidr = "198.51.100.0/24")
  then Ok {| IPNet_IP := [198; 51; 100; 0]; IPNet_Mask := mask24 |}
  else if bool_decide (cidr = "203.0.113.0/24")
  then Ok {| IPNet_IP := [203; 0; 113; 0]; IPNet_Mask := mask24 |}
  else Err (ErrorString "invalid CIDR address").

#[global] Instance net : NetLib := {|
  ParseCIDR := parse_cidr;
  ParseIP := parse;
  IP_String := to_string
|}.

(** The package's variables at the start, with the outcomes to come. *)
Definition start (ints : list rand_Int) (reads : list rand_Read) : generators :=
  {| gen_IPGetter := IPGetter; gen_MACGenerator := MACGenerator;
     gen_ints := ints; gen_reads := reads |}.

(** Reads for four interfaces; the second draws the address of the
    first again. *)
Definition four_reads : list rand_Read :=
  [ReadFills 255 0 1 2 3 171; ReadFills 254 0 1 2 3 171;
   ReadFills 1 0 1 2 3 171; ReadFills 17 16 1 2 3 171;
   ReadFills 33 16 1 2 3 171].

(** The interfaces that [GenerateHardware 4] makes of them. *)
Definition four_interfaces : list Interface :=
  [mkInterface "fe:00:01:02:03:ab" "192.0.2.2" "255.255.255.0" "192.0.2.1";
   mkInterface "02:00:01:02:03:ab" "198.51.100.2" "255.255.255.0"
     "198.51.100.1";
   mkInterface "12:10:01:02:03:ab" "203.0.113.2" "255.255.255.0" "203.0.113.1";
   mkInterface "22:10:01:02:03:ab" "192.0.2.3" "255.255.255.0" "192.0.2.1"].

(** The package's variables after that call. *)
Definition after_four : generators :=
  {| gen_IPGetter :=
       {| ip_addresses :=
            {[ "192.0.2.0/24" := "192.0.2.3";
               "198.51.100.0/24" := "198.51.100.2";
               "203.0.113.0/24" := "203.0.113.2" ]} |};
     gen_MACGenerator :=
       {| addresses := list_to_set (Dhcp_Mac <$> four_interfaces) |};
     gen_ints := []; gen_reads := [] |}.

End Dotted.

(** ** An in-memory world

    A store of resources keyed by name and a remote service holding
    executions keyed by id, each call of which can be made to fail.  It is
    the environment of the concrete runs below. *)
Module Fake.

Record Execution : Type := mkExecution {
  ex_data : string;
  ex_metadata : list Byte.byte;
  ex_actions : list WorkflowAction;
  ex_events : list WorkflowActionStatus;
  ex_state : State
}.

Record World : Type := mkWorld {
  workflows : gmap string Workflow;
  hardware : gmap string Hardware;
  templates : gmap string Template;
  executions : gmap string Execution;
  fresh_ids : list string;
  fail_Patch : option error;
  fail_StatusPatch : option error;
  fail_Get : option error;
  fail_Create : option error;
  fail_Delete : option error;
  fail_GetMetadata : option error;
  fail_GetActions : option error;
  fail_GetEvents : option error;
  fail_GetState : option error
}.

Definition set_workflows (f : gmap string Workflow) (x : World) : World :=
  mkWorld f (hardware x) (templates x) (executions x) (fresh_ids x)
    (fail_Patch x) (fail_StatusPatch x) (fail_Get x) (fail_Create x)
    (fail_Delete x) (fail_GetMetadata x) (fail_GetActions x)
    (fail_GetEvents x) (fail_GetState x).

Definition set_executions (f : gmap string Execution) (ids : list string)
    (x : World) : World :=
  mkWorld (workflows x) (hardware x) (templates x) f ids
    (fail_Patch x) (fail_StatusPatch x) (fail_Get x) (fail_Create x)
    (fail_Delete x) (fail_GetMetadata x) (fail_GetActions x)
    (fail_GetEvents x) (fail_GetState x).

Definition lookup_or_not_found {A} (m : gmap string A) (key : NamespacedName)
    (x : World) : result A * World :=
  match m !! nn_Name key with
  | Some a => (Ok a, x)
  | None => (Err (StatusError StatusReasonNotFound), x)
  end.

(** [Patch] stores everything but the status, [Status().Patch] the
    status only. *)
Definition patch (obj base : Workflow) (x : World) : option error * World :=
  match fail_Patch x with
  | Some e => (Some e, x)
  | None =>
      match workflows x !! Name obj with
      | None => (Some (StatusError StatusReasonNotFound), x)
      | Some old =>
          (None, set_workflows
                   (<[Name obj := SetStatus (Status old) obj]> (workflows x)) x)
      end
  end.

Definition status_patch (obj base : Workflow) (x : World)
  : option error * World :=
  match fail_StatusPatch x with
  | Some e => (Some e, x)
  | None =>
      match workflows x !! Name obj with
      | None => (Some (StatusError StatusReasonNotFound), x)
      | Some old =>
          (None, set_workflows
                   (<[Name obj := SetStatus (Status obj) old]> (workflows x)) x)
      end
  end.

#[global] Instance client : Client World := {|
  Client_GetWorkflow key x := lookup_or_not_found (workflows x) key x;
  Client_GetHardware key x := lookup_or_not_found (hardware x) key x;
  Client_GetTemplate key x := lookup_or_not_found (templates x) key x;
  Client_Patch := patch;
  Client_StatusPatch := status_patch
|}.

(** A read of one execution of the remote service. *)
Definition fetch {A} (fail : option error) (f : Execution → A) (id : string)
    (x : World) : result A * World :=
  match fail with
  | Some e => (Err e, x)
  | None =>
      match executions x !! id with
      | Some ex => (Ok (f ex), x)
      | None => (Err ErrNotFound, x)
      end
  end.

Definition new_execution : Execution :=
  {| ex_data := ""; ex_metadata := []; ex_actions := []; ex_events := [];
     ex_state := State_STATE_PENDING |}.

Definition create (templateID hardwareID : string) (x : World)
  : result string * World :=
  match fail_Create x with
  | Some e => (Err e, x)
  | None =>
      match fresh_ids x with
      | [] => (Err (ErrorString "no capacity"), x)
      | id :: ids =>
          (Ok id, set_executions (<[id := new_execution]> (executions x)) ids x)
      end
  end.

Definition delete (id : string) (x : World) : option error * World :=
  match fail_Delete x with
  | Some e => (Some e, x)
  | None =>
      match executions x !! id with
      | Some _ =>
          (None, set_executions (base.delete id (executions x)) (fresh_ids x) x)
      | None => (Some ErrNotFound, x)
      end
  end.

#[global] Instance tink : workflowClient World := {|
  WorkflowClient_Get id x :=
    fetch (fail_Get x) (λ ex, {| GetId := id; GetData := ex_data ex |}) id x;
  WorkflowClient_Create := create;
  WorkflowClient_Delete := delete;
  WorkflowClient_GetMetadata id x := fetch (fail_GetMetadata x) ex_metadata id x;
  WorkflowClient_GetActions id x := fetch (fail_GetActions x) ex_actions id x;
  WorkflowClient_GetEvents id x := fetch (fail_GetEvents x) ex_events id x;
  WorkflowClient_GetState id x := fetch (fail_GetState x) ex_state id x
|}.

(** The resources of the spec's scenarios. *)
Definition no_status : WorkflowStatus :=
  {| Status_State := ""; Status_Data := ""; Status_Metadata := "";
     Status_Actions := []; Status_Events := [] |}.

Definition wf1 : Workflow :=
  {| Name := "wf-1"; DeletionTimestamp := None; Finalizers := [];
     remoteID := ""; Spec_HardwareRef := "hw-1"; Spec_TemplateRef := "tpl-1";
     Status := no_status |}.

Definition req1 : Request :=
  {| req_NamespacedName := {| Namespace := "default"; nn_Name := "wf-1" |} |}.

(** A store that holds [w] under the name ["wf-1"] and the hardware and
    template it refers to, and a remote service with the executions
    [exs], where no call is made to fail. *)
Definition world_of (w : Workflow) (exs : gmap string Execution) : World :=
  {| workflows := {[ "wf-1" := w ]};
     hardware := {[ "hw-1" := {| Hardware_Spec_ID := "H1" |} ]};
     templates := {[ "tpl-1" := {| Template_TinkID := "T1" |} ]};
     executions := exs;
     fresh_ids := ["R1"; "R2"];
     fail_Patch := None; fail_StatusPatch := None; fail_Get := None;
     fail_Create := None; fail_Delete := None; fail_GetMetadata := None;
     fail_GetActions := None; fail_GetEvents := None;
     fail_GetState := None |}.

Definition world1 (w : Workflow) : World := world_of w ∅.

Definition failing_Get (e : error) (x : World) : World :=
  mkWorld (workflows x) (hardware x) (templates x) (executions x)
    (fresh_ids x) (fail_Patch x) (fail_StatusPatch x) (Some e)
    (fail_Create x) (fail_Delete x) (fail_GetMetadata x) (fail_GetActions x)
    (fail_GetEvents x) (fail_GetState x).

Definition failing_Delete (e : error) (x : World) : World :=
  mkWorld (workflows x) (hardware x) (templates x) (executions x)
    (fresh_ids x) (fail_Patch x) (fail_StatusPatch x) (fail_Get x)
    (fail_Create x) (Some e) (fail_GetMetadata x) (fail_GetActions x)
    (fail_GetEvents x) (fail_GetState x).

Definition failing_GetEvents (e : error) (x : World) : World :=
  mkWorld (workflows x) (hardware x) (templates x) (executions x)
    (fresh_ids x) (fail_Patch x) (fail_StatusPatch x) (fail_Get x)
    (fail_Create x) (fail_Delete x) (fail_GetMetadata x) (fail_GetActions x)
    (Some e) (fail_GetState x).

Definition failing_StatusPatch (e : error) (x : World) : World :=
  mkWorld (workflows x) (hardware x) (templates x) (executions x)
    (fresh_ids x) (fail_Patch x) (Some e) (fail_Get x)
    (fail_Create x) (fail_Delete x) (fail_GetMetadata x) (fail_GetActions x)
    (fail_GetEvents x) (fail_GetState x).

Definition failing_Create (e : error) (x : World) : World :=
  mkWorld (workflows x) (hardware x) (templates x) (executions x)
    (fresh_ids x) (fail_Patch x) (fail_StatusPatch x) (fail_Get x)
    (Some e) (fail_Delete x) (fail_GetMetadata x) (fail_GetActions x)
    (fail_GetEvents x) (fail_GetState x).

Definition failing_Patch (e : error) (x : World) : World :=
  mkWorld (workflows x) (hardware x) (templates x) (executions x)
    (fresh_ids x) (Some e) (fail_StatusPatch x) (fail_Get x)
    (fail_Create x) (fail_Delete x) (fail_GetMetadata x) (fail_GetActions x)
    (fail_GetEvents x) (fail_GetState x).

Definition unavailable : error := ErrorString "connection refused".

(** ["wf-1"] once created remotely as ["R1"], with its finalizer. *)
Definition wf1_R1 : Workflow :=
  {| Name := "wf-1"; DeletionTimestamp := None;
     Finalizers := [WorkflowFinalizer];
     remoteID := "R1"; Spec_HardwareRef := "hw-1"; Spec_TemplateRef := "tpl-1";
     Status := no_status |}.

(** The same resource once its deletion was requested. *)
Definition wf1_deleting : Workflow :=
  {| Name := "wf-1"; DeletionTimestamp := Some 1600000000;
     Finalizers := [WorkflowFinalizer];
     remoteID := "R1"; Spec_HardwareRef := "hw-1"; Spec_TemplateRef := "tpl-1";
     Status := no_status |}.

Definition hello_action : WorkflowAction :=
  {| GetName := "hello_world"; GetTaskName := "hello world";
     GetImage := "hello-world"; GetTimeout := 60; GetCommand := [];
     GetOnTimeout := []; GetOnFailure := []; GetWorkerId := "H1";
     GetVolumes := []; GetEnvironment := [] |}.

Definition hello_event : WorkflowActionStatus :=
  {| ev_GetActionName := "hello_world"; ev_GetTaskName := "hello world";
     ev_GetActionStatus := State_STATE_SUCCESS; ev_GetSeconds := 2;
     ev_GetMessage := "finished"; ev_GetWorkerId := "H1";
     ev_GetCreatedAt := 1600000100 |}.

(** The execution ["R1"] in state [s]. *)
Definition R1_in (s : State) : gmap string Execution :=
  {[ "R1" := {| ex_data := "{}"; ex_metadata := [];
                ex_actions := [hello_action]; ex_events := [hello_event];
                ex_state := s |} ]}.

(** The world [x] with no hardware in the store. *)
Definition without_hardware (x : World) : World :=
  mkWorld (workflows x) ∅ (templates x) (executions x) (fresh_ids x)
    (fail_Patch x) (fail_StatusPatch x) (fail_Get x) (fail_Create x)
    (fail_Delete x) (fail_GetMetadata x) (fail_GetActions x)
    (fail_GetEvents x) (fail_GetState x).

Definition key1 : NamespacedName := req_NamespacedName req1.

(** ["wf-1"] is being deleted and its execution is already gone. *)
Definition gone : World := world_of wf1_deleting ∅.

(** That world once the patch that removes the finalizer went through. *)
Definition gone_patched : World :=
  (patch (RemoveFinalizer wf1_deleting WorkflowFinalizer) wf1_deleting gone).2.

(** A store that does not hold ["wf-1"]. *)
Definition empty_store : World := set_workflows ∅ (world1 wf1).

End Fake.

(** * Vocabulary of the properties *)

Section ReconcilerVocabulary.
Context {W : Type} `{!Client W} `{!workflowClient W}.

(** What [reconcileDelete] returns once the patch that removes the
    finalizer has returned [perr]. *)
Definition patch_outcome (perr : option error) : Result * option error :=
  (Result_zero, (Errorf "failed to patch workflow") <$> perr).

(** What [reconcileDelete] logs after that patch. *)
Definition patch_log (perr : option error) : list Call :=
  match perr with
  | Some pe => [CallLogError pe "Failed to patch workflow"]
  | None => []
  end.

(** A [Delete] that returned nil or an error that is [ErrNotFound]. *)
Definition delete_tolerated (derr : option error) : bool :=
  match derr with
  | None => true
  | Some e => errors_Is_ErrNotFound e
  end.

(** The result of a pass whose state fetch returned [s]: a requeue after
    one minute unless [s] is the terminal success. *)
Definition requeue_until_success (s : State) : Result :=
  if bool_decide (s = State_STATE_SUCCESS) then Result_zero
  else {| Requeue := false; RequeueAfter := time_Minute |}.

(** The five ways through the fetches of [reconcileStatus]: the calls
    made for the execution [id], the object they leave to be patched
    (starting from [w0]) and the values returned. *)
Inductive status_sync (id : string) (w0 : Workflow)
  : list Call → Workflow → Result * option error → Prop :=
| sync_metadata_failed e :
    status_sync id w0
      [CallTinkGetMetadata id (Err e);
       CallLogError e "Failed to get metadata for workflow"]
      w0
      (Result_zero, Some (Errorf "failed to get metadata for workflow" e))
| sync_actions_failed md e :
    status_sync id w0
      [CallTinkGetMetadata id (Ok md);
       CallTinkGetActions id (Err e);
       CallLogError e "Failed to get actions for workflow"]
      (SetStatusMetadata (String.string_of_list_byte md) w0)
      (Result_zero, Some (Errorf "failed to get actions for workflow" e))
| sync_events_failed md actions e :
    status_sync id w0
      [CallTinkGetMetadata id (Ok md);
       CallTinkGetActions id (Ok actions);
       CallTinkGetEvents id (Err e);
       CallLogError e "Failed to get events for workflow"]
      (SetStatusActions (statusAction <$> actions)
         (SetStatusMetadata (String.string_of_list_byte md) w0))
      (Result_zero, Some (Errorf "failed to get events for workflow" e))
| sync_state_failed md actions events e :
    status_sync id w0
      [CallTinkGetMetadata id (Ok md);
       CallTinkGetActions id (Ok actions);
       CallTinkGetEvents id (Ok events);
       CallTinkGetState id (Err e);
       CallLogError e "Failed to get state for workflow"]
      (SetStatusEvents (statusEvent <$> events)
         (SetStatusActions (statusAction <$> actions)
            (SetStatusMetadata (String.string_of_list_byte md) w0)))
      (Result_zero, Some (Errorf "failed to get state for workflow" e))
| sync_complete md actions events s :
    status_sync id w0
      [CallTinkGetMetadata id (Ok md);
       CallTinkGetActions id (Ok actions);
       CallTinkGetEvents id (Ok events);
       CallTinkGetState id (Ok s)]
      (SetStatusState (State_String s)
         (SetStatusEvents (statusEvent <$> events)
            (SetStatusActions (statusAction <$> actions)
               (SetStatusMetadata (String.string_of_list_byte md) w0))))
      (requeue_until_success s, None).

(** The resource action [sa] holds, field by field, what the getters of
    the fetched action [a] return. *)
Definition action_recorded (a : WorkflowAction) (sa : Action) : Prop :=
  Action_Name sa = GetName a
  ∧ Action_TaskName sa = GetTaskName a
  ∧ Action_Image sa = GetImage a
  ∧ Action_Timeout sa = GetTimeout a
  ∧ Action_Command sa = GetCommand a
  ∧ Action_OnTimeout sa = GetOnTimeout a
  ∧ Action_OnFailure sa = GetOnFailure a
  ∧ Action_WorkerID sa = GetWorkerId a
  ∧ Action_Volumes sa = GetVolumes a
  ∧ Action_Environment sa = GetEnvironment a.

(** The resource event [se] holds, field by field, what the getters of
    the fetched event [e] return, the action status as its name. *)
Definition event_recorded (e : WorkflowActionStatus) (se : Event) : Prop :=
  Event_ActionName se = ev_GetActionName e
  ∧ Event_TaskName se = ev_GetTaskName e
  ∧ Event_ActionStatus se = State_String (ev_GetActionStatus e)
  ∧ Event_Seconds se = ev_GetSeconds e
  ∧ Event_Message se = ev_GetMessage e
  ∧ Event_WorkerID se = ev_GetWorkerId e
  ∧ Event_CreatedAt se = ev_GetCreatedAt e.

(** The status that the fetches [fetches] of the execution [id] leave in
    the object [wb], read field by field: a field whose fetch returned
    holds what was fetched, one entry for each fetched entry and in the
    same order; a field whose fetch did not return is as it was in [w]. *)
Definition status_gathered (id : string) (fetches : list Call)
    (w wb : Workflow) : Prop :=
  (∀ md, CallTinkGetMetadata id (Ok md) ∈ fetches →
         Status_Metadata (Status wb) = String.string_of_list_byte md)
  ∧ (∀ actions, CallTinkGetActions id (Ok actions) ∈ fetches →
                Forall2 action_recorded actions (Status_Actions (Status wb)))
  ∧ (∀ events, CallTinkGetEvents id (Ok events) ∈ fetches →
               Forall2 event_recorded events (Status_Events (Status wb)))
  ∧ (∀ s, CallTinkGetState id (Ok s) ∈ fetches →
          Status_State (Status wb) = State_String s)
  ∧ ((∀ md, CallTinkGetMetadata id (Ok md) ∉ fetches) →
     Status_Metadata (Status wb) = Status_Metadata (Status w))
  ∧ ((∀ actions, CallTinkGetActions id (Ok actions) ∉ fetches) →
     Status_Actions (Status wb) = Status_Actions (Status w))
  ∧ ((∀ events, CallTinkGetEvents id (Ok events) ∉ fetches) →
     Status_Events (Status wb) = Status_Events (Status w))
  ∧ ((∀ s, CallTinkGetState id (Ok s) ∉ fetches) →
     Status_State (Status wb) = Status_State (Status w)).

(** What the deferred function of [reconcileStatus] logs once the status
    patch has returned [perr]. *)
Definition status_patch_log (perr : option error) : list Call :=
  match perr with
  | Some pe => [CallLogError pe "Failed to patch workflow status"]
  | None => []
  end.

(** The calls of the status sync. *)
Definition status_call (c : Call) : bool :=
  match c with
  | CallTinkGetMetadata _ _ | CallTinkGetActions _ _
  | CallTinkGetEvents _ _ | CallTinkGetState _ _
  | CallStatusPatch _ _ _ => true
  | _ => false
  end.

Definition no_status_call (t : list Call) : Prop :=
  Forall (λ c, status_call c = false) t.

(** A run that ends in [reconcileStatus], after calls [pre]. *)
Definition reaches_status (run : Result * option error * W * list Call)
  : Prop :=
  ∃ pre w tw world,
    run = (outcome (reconcileStatus w tw world),
           world_after (reconcileStatus w tw world),
           (pre ++ trace (reconcileStatus w tw world))%list)
    ∧ no_status_call pre.

(** A run that returns an error before the status sync. *)
Definition stops_early (run : Result * option error * W * list Call)
  : Prop :=
  (outcome run).2 ≠ None ∧ no_status_call (trace run).

(** The calls that create a remote execution. *)
Definition create_call (c : Call) : bool :=
  match c with
  | CallTinkCreate _ _ _ => true
  | _ => false
  end.

Definition no_create_call (t : list Call) : Prop :=
  Forall (λ c, create_call c = false) t.

End ReconcilerVocabulary.

(** ** The shapes of a pass

    The traces a pass can leave, function by function, each with the
    values returned.  They are the case analysis behind the properties of
    a whole pass further down. *)

(** [reconcileStatus w tw]: the fetches, then the deferred status patch. *)
Inductive status_shape (w : Workflow) (tw : pbWorkflow)
  : list Call → Result * option error → Prop :=
| status_shape_intro fetches wb perr out :
    status_sync (GetId tw) (SetStatusData (GetData tw) w) fetches wb out →
    status_shape w tw
      (fetches ++ CallStatusPatch wb w perr :: status_patch_log perr)%list out.

(** [createWorkflow w]. *)
Inductive create_shape (w : Workflow) : list Call → result string → Prop :=
| create_hardware_failed e :
    create_shape w
      [CallGetHardware (ObjectKey_of_name (Spec_HardwareRef w)) (Err e);
       CallLogError e "Failed to get hardware"]
      (Err (Errorf "failed to get hardware" e))
| create_template_failed hw e :
    create_shape w
      [CallGetHardware (ObjectKey_of_name (Spec_HardwareRef w)) (Ok hw);
       CallGetTemplate (ObjectKey_of_name (Spec_TemplateRef w)) (Err e);
       CallLogError e "Failed to get template"]
      (Err (Errorf "failed to get template" e))
| create_failed hw t e :
    create_shape w
      [CallGetHardware (ObjectKey_of_name (Spec_HardwareRef w)) (Ok hw);
       CallGetTemplate (ObjectKey_of_name (Spec_TemplateRef w)) (Ok t);
       CallTinkCreate (Template_TinkID t) (Hardware_Spec_ID hw) (Err e);
       CallLogError e "Failed to create workflow"]
      (Err (Errorf "failed to create workflow" e))
| create_done hw t id :
    create_shape w
      [CallGetHardware (ObjectKey_of_name (Spec_HardwareRef w)) (Ok hw);
       CallGetTemplate (ObjectKey_of_name (Spec_TemplateRef w)) (Ok t);
       CallTinkCreate (Template_TinkID t) (Hardware_Spec_ID hw) (Ok id)]
      (Ok id).

(** [reconcileNormal w] from the [Get] of the execution [id] on. *)
Inductive normal_with_shape (w : Workflow) (id : string)
  : list Call → Result * option error → Prop :=
| normal_get_failed e :
    normal_with_shape w id [CallTinkGet id (Err e)]
      (Result_zero, Some (Errorf "failed to get workflow" e))
| normal_patch_failed tw e :
    normal_with_shape w id
      [CallTinkGet id (Ok tw); CallPatch (SetTinkID id w) w (Some e);
       CallLogError e "Failed to patch workflow"]
      (Result_zero, Some (Errorf "failed to patch workflow" e))
| normal_synced tw t out :
    status_shape (SetTinkID id w) tw t out →
    normal_with_shape w id
      (CallTinkGet id (Ok tw) :: CallPatch (SetTinkID id w) w None :: t) out.

(** [reconcileNormal w]. *)
Inductive normal_shape (w : Workflow)
  : list Call → Result * option error → Prop :=
| normal_known t out :
    TinkID w ≠ "" → normal_with_shape w (TinkID w) t out →
    normal_shape w t out
| normal_not_created t e :
    TinkID w = "" → create_shape w t (Err e) →
    normal_shape w t (Result_zero, Some e)
| normal_created t1 id t2 out :
    TinkID w = "" → create_shape w t1 (Ok id) → normal_with_shape w id t2 out →
    normal_shape w (t1 ++ t2)%list out.

(** [reconcileDelete w]. *)
Inductive delete_shape (w : Workflow)
  : list Call → Result * option error → Prop :=
| delete_aborted e :
    TinkID w ≠ "" → errors_Is_ErrNotFound e = false →
    delete_shape w
      [CallTinkDelete (TinkID w) (Some e);
       CallLogError e "Failed to delete workflow from Tinkerbell"]
      (Result_zero,
       Some (Errorf "failed to delete workflow from Tinkerbell" e))
| delete_done derr perr :
    TinkID w ≠ "" → delete_tolerated derr = true →
    delete_shape w
      (CallTinkDelete (TinkID w) derr
         :: CallPatch (RemoveFinalizer w WorkflowFinalizer) w perr
         :: patch_log perr)
      (patch_outcome perr)
| delete_no_id perr :
    TinkID w = "" →
    delete_shape w
      (CallPatch (RemoveFinalizer w WorkflowFinalizer) w perr :: patch_log perr)
      (patch_outcome perr).

(** The calls between the load of [wf] and the branch of [Reconcile]. *)
Inductive ensured (wf : Workflow) : list Call → Prop :=
| ensured_present :
    ContainsFinalizer wf WorkflowFinalizer = true → ensured wf []
| ensured_added :
    ContainsFinalizer wf WorkflowFinalizer = false →
    ensured wf [CallPatch (AddFinalizer wf WorkflowFinalizer) wf None].

(** [Reconcile] of the resource under [key]. *)
Inductive reconcile_shape (key : NamespacedName)
  : list Call → Result * option error → Prop :=
| pass_absent err :
    apierrors_IsNotFound err = true →
    reconcile_shape key [CallGetWorkflow key (Err err)] (Result_zero, None)
| pass_load_failed err :
    apierrors_IsNotFound err = false →
    reconcile_shape key
      [CallGetWorkflow key (Err err); CallLogError err "Failed to get workflow"]
      (Result_zero, Some (Errorf "failed to get workflow" err))
| pass_finalizer_failed wf e :
    ContainsFinalizer wf WorkflowFinalizer = false →
    reconcile_shape key
      [CallGetWorkflow key (Ok wf);
       CallPatch (AddFinalizer wf WorkflowFinalizer) wf (Some e)]
      (Result_zero, Some (Errorf "failed to ensure finalizer on workflow" e))
| pass_delete wf pre t out :
    ensured wf pre → DeletionTimestamp_IsZero wf = false →
    delete_shape (AddFinalizer wf WorkflowFinalizer) t out →
    reconcile_shape key (CallGetWorkflow key (Ok wf) :: pre ++ t)%list out
| pass_normal wf pre t out :
    ensured wf pre → DeletionTimestamp_IsZero wf = true →
    normal_shape (AddFinalizer wf WorkflowFinalizer) t out →
    reconcile_shape key (CallGetWorkflow key (Ok wf) :: pre ++ t)%list out.

(** [c1] comes before [c2] in the trace [t]. *)
Inductive precedes (c1 c2 : Call) : list Call → Prop :=
| precedes_here t : c2 ∈ t → precedes c1 c2 (c1 :: t)
| precedes_later c t : precedes c1 c2 t → precedes c1 c2 (c :: t).

(** The calls to the remote service. *)
Definition remote_call (c : Call) : bool :=
  match c with
  | CallTinkGet _ _ | CallTinkCreate _ _ _ | CallTinkDelete _ _
  | CallTinkGetMetadata _ _ | CallTinkGetActions _ _
  | CallTinkGetEvents _ _ | CallTinkGetState _ _ => true
  | _ => false
  end.

Definition delete_call (c : Call) : bool :=
  match c with
  | CallTinkDelete _ _ => true
  | _ => false
  end.

(** The id that a fetch of the status sync asks for. *)
Definition fetch_id (c : Call) : option string :=
  match c with
  | CallTinkGetMetadata id _ | CallTinkGetActions id _
  | CallTinkGetEvents id _ | CallTinkGetState id _ => Some id
  | _ => None
  end.

(** The object that a patch, of the resource or of its status, sends. *)
Definition patched_object (c : Call) : option Workflow :=
  match c with
  | CallPatch obj _ _ | CallStatusPatch obj _ _ => Some obj
  | _ => None
  end.

(** The number of [Create] calls in a trace. *)
Definition create_count (t : list Call) : nat :=
  length (filter (λ c, create_call c = true) t).

Definition status_patch_call (c : Call) : bool :=
  match c with
  | CallStatusPatch _ _ _ => true
  | _ => false
  end.

(** The number of status patches in a trace. *)
Definition status_patch_count (t : list Call) : nat :=
  length (filter (λ c, status_patch_call c = true) t).

(** * Properties of the reconciler *)

(** Unfolding of the monad and of the wrappers around the collaborators. *)
Ltac unfold_run :=
  unfold outcome, world_after, trace,
    r_Get, r_GetHardware, r_GetTemplate, r_Patch, r_Status_Patch,
    wc_Get, wc_Create, wc_Delete, wc_GetMetadata, wc_GetActions, wc_GetEvents,
    wc_GetState, call, logger_Error, mbind, M_bind, mret, M_ret in *.

(** Case analysis on the answer of the next call to a collaborator. *)
Ltac head_of t := lazymatch t with ?f _ => head_of f | _ => t end.

Ltac is_collaborator_call op :=
  let h := head_of op in
  first [ constr_eq h @Client_GetWorkflow | constr_eq h @Client_GetHardware
        | constr_eq h @Client_GetTemplate | constr_eq h @Client_Patch
        | constr_eq h @Client_StatusPatch | constr_eq h @WorkflowClient_Get
        | constr_eq h @WorkflowClient_Create
        | constr_eq h @WorkflowClient_Delete
        | constr_eq h @WorkflowClient_GetMetadata
        | constr_eq h @WorkflowClient_GetActions
        | constr_eq h @WorkflowClient_GetEvents
        | constr_eq h @WorkflowClient_GetState ].

Ltac next_call :=
  match goal with
  | |- context [let '(_, _) := ?op in _] =>
      is_collaborator_call op;
      let a := fresh "a" in let w := fresh "w" in let E := fresh "E" in
      destruct op as [a w] eqn:E; destruct a
  end; cbn beta iota zeta.

Section ReconcilerProperties.
Context {W : Type} `{!Client W} `{!workflowClient W}.

(** A pass whose load of the resource fails. *)
Lemma Reconcile_load_failed (req : Request) (world world1 : W) (err : error) :
  Client_GetWorkflow (req_NamespacedName req) world = (Err err, world1) →
  Reconcile req world
  = if apierrors_IsNotFound err
    then ((Result_zero, None), world1,
          [CallGetWorkflow (req_NamespacedName req) (Err err)])
    else ((Result_zero, Some (Errorf "failed to get workflow" err)), world1,
          [CallGetWorkflow (req_NamespacedName req) (Err err);
           CallLogError err "Failed to get workflow"]).
Proof.
  intros Hget. unfold Reconcile. unfold_run. rewrite Hget.
  by destruct (apierrors_IsNotFound err).
Qed.

(** C8. When loading the resource fails with Not-Found, [Reconcile]
    returns the zero result and no error, and the load is the only call
    it makes; any other load failure is logged and returned as an
    error, again without a further call. *)
Theorem Reconcile_resource_absent (req : Request) (world world1 : W)
    (err : error) :
  Client_GetWorkflow (req_NamespacedName req) world = (Err err, world1) →
  (apierrors_IsNotFound err = true →
     Reconcile req world
     = ((Result_zero, None), world1,
        [CallGetWorkflow (req_NamespacedName req) (Err err)]))
  ∧ (apierrors_IsNotFound err = false →
     Reconcile req world
     = ((Result_zero, Some (Errorf "failed to get workflow" err)), world1,
        [CallGetWorkflow (req_NamespacedName req) (Err err);
         CallLogError err "Failed to get workflow"])).
Proof.
  intros Hget. rewrite (Reconcile_load_failed req world world1 err Hget).
  split; intros ->; reflexivity.
Qed.

(** *** The delete path *)

Lemma RemoveFinalizer_not_elem (w : Workflow) (finalizer : string) :
  finalizer ∉ Finalizers (RemoveFinalizer w finalizer).
Proof.
  unfold RemoveFinalizer; simpl. rewrite list_elem_of_filter. tauto.
Qed.

Lemma reconcileDelete_tolerated (w : Workflow) (world world1 world2 : W)
    (derr perr : option error) :
  TinkID w ≠ "" →
  WorkflowClient_Delete (TinkID w) world = (derr, world1) →
  delete_tolerated derr = true →
  Client_Patch (RemoveFinalizer w WorkflowFinalizer) w world1
    = (perr, world2) →
  reconcileDelete w world
  = (patch_outcome perr, world2,
     CallTinkDelete (TinkID w) derr
       :: CallPatch (RemoveFinalizer w WorkflowFinalizer) w perr
       :: patch_log perr).
Proof.
  intros Hid Hdel Htol Hpatch. unfold reconcileDelete.
  rewrite bool_decide_eq_true_2 by done. unfold_run. rewrite Hdel.
  destruct derr as [e|]; simpl in Htol; [rewrite Htol; simpl|];
    rewrite Hpatch; destruct perr; reflexivity.
Qed.

Lemma reconcileDelete_no_id (w : Workflow) (world world2 : W)
    (perr : option error) :
  TinkID w = "" →
  Client_Patch (RemoveFinalizer w WorkflowFinalizer) w world
    = (perr, world2) →
  reconcileDelete w world
  = (patch_outcome perr, world2,
     CallPatch (RemoveFinalizer w WorkflowFinalizer) w perr
       :: patch_log perr).
Proof.
  intros Hid Hpatch. unfold reconcileDelete.
  rewrite bool_decide_eq_false_2 by (intros Hne; apply Hne, Hid).
  unfold_run. rewrite Hpatch. destruct perr; reflexivity.
Qed.

Lemma reconcileDelete_aborted (w : Workflow) (world world1 : W) (e : error) :
  TinkID w ≠ "" →
  WorkflowClient_Delete (TinkID w) world = (Some e, world1) →
  errors_Is_ErrNotFound e = false →
  reconcileDelete w world
  = ((Result_zero,
      Some (Errorf "failed to delete workflow from Tinkerbell" e)),
     world1,
     [CallTinkDelete (TinkID w) (Some e);
      CallLogError e "Failed to delete workflow from Tinkerbell"]).
Proof.
  intros Hid Hdel Hnf. unfold reconcileDelete.
  rewrite bool_decide_eq_true_2 by done. unfold_run.
  rewrite Hdel, Hnf. reflexivity.
Qed.

(** C5. In the delete path, a [Delete] that fails with Not-Found is
    treated as success: the finalizer is removed and the resource is
    patched, with the very result, patch and log that follow a [Delete]
    that succeeded or a resource without remote id; when the patch goes
    through the path returns no error, and it does so again, removing the
    finalizer again, when it is run a second time on the resource (as it
    was, or as read again) and [Delete] again answers Not-Found. *)
Theorem reconcileDelete_not_found_is_success (w : Workflow)
    (world world1 world2 : W) (e : error) (perr : option error) :
  TinkID w ≠ "" →
  WorkflowClient_Delete (TinkID w) world = (Some e, world1) →
  errors_Is_ErrNotFound e = true →
  Client_Patch (RemoveFinalizer w WorkflowFinalizer) w world1
    = (perr, world2) →
  let patched := RemoveFinalizer w WorkflowFinalizer in
  reconcileDelete w world
    = (patch_outcome perr, world2,
       CallTinkDelete (TinkID w) (Some e) :: CallPatch patched w perr
         :: patch_log perr)
  ∧ (WorkflowFinalizer ∉ Finalizers patched)
  ∧ (perr = None → outcome (reconcileDelete w world) = (Result_zero, None))
  ∧ (∀ world0 : W,
       WorkflowClient_Delete (TinkID w) world0 = (None, world1) →
       reconcileDelete w world0
       = (patch_outcome perr, world2,
          CallTinkDelete (TinkID w) None :: CallPatch patched w perr
            :: patch_log perr))
  ∧ (∀ w' : Workflow,
       TinkID w' = "" →
       Finalizers w' = Finalizers w →
       Client_Patch (RemoveFinalizer w' WorkflowFinalizer) w' world1
         = (perr, world2) →
       reconcileDelete w' world1
       = (patch_outcome perr, world2,
          CallPatch (RemoveFinalizer w' WorkflowFinalizer) w' perr
            :: patch_log perr)
       ∧ Finalizers (RemoveFinalizer w' WorkflowFinalizer)
         = Finalizers patched)
  ∧ (∀ (w2 : Workflow) (e2 : error) (world3 world4 : W),
       perr = None →
       TinkID w2 = TinkID w →
       WorkflowClient_Delete (TinkID w) world2 = (Some e2, world3) →
       errors_Is_ErrNotFound e2 = true →
       Client_Patch (RemoveFinalizer w2 WorkflowFinalizer) w2 world3
         = (None, world4) →
       let first := reconcileDelete w world in
       let second := reconcileDelete w2 (world_after first) in
       outcome first = (Result_zero, None)
       ∧ outcome second = (Result_zero, None)
       ∧ CallPatch patched w None ∈ trace first
       ∧ CallPatch (RemoveFinalizer w2 WorkflowFinalizer) w2 None
         ∈ trace second
       ∧ (WorkflowFinalizer
          ∉ Finalizers (RemoveFinalizer w2 WorkflowFinalizer))).
Proof.
  intros Hid Hdel Hnf Hpatch patched.
  pose proof (reconcileDelete_tolerated w world world1 world2 (Some e) perr
                Hid Hdel Hnf Hpatch) as Hrun.
  split; [exact Hrun|].
  split; [apply RemoveFinalizer_not_elem|].
  split; [intros ->; rewrite Hrun; reflexivity|].
  split.
  { intros world0 Hdel0.
    exact (reconcileDelete_tolerated w world0 world1 world2 None perr
             Hid Hdel0 eq_refl Hpatch). }
  split.
  { intros w' Hid' Hfin Hpatch'. split.
    - exact (reconcileDelete_no_id w' world1 world2 perr Hid' Hpatch').
    - unfold patched, RemoveFinalizer; simpl. by rewrite Hfin. }
  intros w2 e2 world3 world4 -> Hid2 Hdel2 Hnf2 Hpatch2 first second.
  assert (Hsecond : second
    = (patch_outcome None, world4,
       CallTinkDelete (TinkID w2) (Some e2)
         :: CallPatch (RemoveFinalizer w2 WorkflowFinalizer) w2 None
         :: patch_log None)).
  { unfold second, first. rewrite Hrun. unfold world_after; simpl.
    rewrite <- Hid2 in Hid, Hdel2.
    exact (reconcileDelete_tolerated w2 world2 world3 world4 (Some e2) None
             Hid Hdel2 Hnf2 Hpatch2). }
  unfold first. rewrite Hsecond, Hrun. unfold outcome, trace; simpl.
  split; [done|]. split; [done|]. split; [set_solver|]. split; [set_solver|].
  apply RemoveFinalizer_not_elem.
Qed.

(** C6. In the delete path, a [Delete] error that is not Not-Found ends
    the path with an error: nothing is patched (the only calls are the
    [Delete] and the log) and the world is the one [Delete] left.  And
    whenever the path does issue the patch that removes the finalizer,
    the resource had no remote id, or the patch comes right after a
    [Delete] that returned nil or Not-Found. *)
Theorem reconcileDelete_error_keeps_finalizer (w : Workflow) (world : W) :
  (∀ (e : error) (world1 : W),
     TinkID w ≠ "" →
     WorkflowClient_Delete (TinkID w) world = (Some e, world1) →
     errors_Is_ErrNotFound e = false →
     reconcileDelete w world
     = ((Result_zero,
         Some (Errorf "failed to delete workflow from Tinkerbell" e)),
        world1,
        [CallTinkDelete (TinkID w) (Some e);
         CallLogError e "Failed to delete workflow from Tinkerbell"])
     ∧ ∀ obj base perr,
         CallPatch obj base perr ∉ trace (reconcileDelete w world))
  ∧ (∀ (pre post : list Call) (obj base : Workflow) (perr : option error),
       trace (reconcileDelete w world)
         = (pre ++ CallPatch obj base perr :: post)%list →
       (TinkID w = "" ∧ pre = [])
       ∨ (∃ derr, pre = [CallTinkDelete (TinkID w) derr]
                  ∧ delete_tolerated derr = true)).
Proof.
  split.
  - intros e world1 Hid Hdel Hnf.
    rewrite (reconcileDelete_aborted w world world1 e Hid Hdel Hnf).
    split; [reflexivity|]. intros obj base perr. unfold trace; simpl.
    set_solver.
  - intros pre post obj base perr.
    destruct (decide (TinkID w = "")) as [Hid|Hid].
    + destruct (Client_Patch (RemoveFinalizer w WorkflowFinalizer) w world)
        as [perr' world2] eqn:Hpatch.
      rewrite (reconcileDelete_no_id w world world2 perr' Hid Hpatch).
      unfold trace; simpl. intros Heq. left. split; [exact Hid|].
      destruct pre as [|c pre]; [reflexivity|]. exfalso.
      simpl in Heq. injection Heq as _ Heq.
      destruct perr'; simpl in Heq;
        repeat (destruct pre; simpl in Heq; try discriminate;
                try (injection Heq as _ Heq)).
    + destruct (WorkflowClient_Delete (TinkID w) world)
        as [derr world1] eqn:Hdel.
      destruct (delete_tolerated derr) eqn:Htol.
      * destruct (Client_Patch (RemoveFinalizer w WorkflowFinalizer) w world1)
          as [perr' world2] eqn:Hpatch.
        rewrite (reconcileDelete_tolerated w world world1 world2 derr perr'
                   Hid Hdel Htol Hpatch).
        unfold trace; simpl. intros Heq. right. exists derr.
        split; [|exact Htol].
        destruct pre as [|c pre]; [discriminate|].
        simpl in Heq. injection Heq as Hc Heq; subst c.
        destruct pre as [|c pre]; [reflexivity|]. exfalso.
        simpl in Heq. injection Heq as _ Heq.
        destruct perr'; simpl in Heq;
          repeat (destruct pre; simpl in Heq; try discriminate;
                  try (injection Heq as _ Heq)).
      * destruct derr as [e|]; [|discriminate]. simpl in Htol.
        rewrite (reconcileDelete_aborted w world world1 e Hid Hdel Htol).
        unfold trace; simpl. intros Heq. exfalso.
        repeat (destruct pre; simpl in Heq; try discriminate;
                try (injection Heq as _ Heq)).
Qed.

(** *** Status sync *)

Lemma reconcileStatus_body_sync (w : Workflow) (tw : pbWorkflow) (world : W) :
  let body := reconcileStatus_body w tw world in
  status_sync (GetId tw) (SetStatusData (GetData tw) w)
    (trace body) (outcome body).1 (outcome body).2.
Proof.
  unfold reconcileStatus_body. unfold_run.
  repeat next_call; simpl; try (constructor; fail).
  match goal with
  | Hm : WorkflowClient_GetMetadata _ _ = (Ok ?md, _),
    Ha : WorkflowClient_GetActions _ _ = (Ok ?acts, _),
    He : WorkflowClient_GetEvents _ _ = (Ok ?evs, _),
    Hs : WorkflowClient_GetState _ _ = (Ok ?s, _) |- _ =>
      generalize
        (sync_complete (GetId tw) (SetStatusData (GetData tw) w) md acts evs s);
      clear; destruct s; intros Hsync; exact Hsync
  end.
Qed.

(** The deferred function: whatever the body returns, the status patch
    is issued with the object the body left, and the values returned
    are the body's. *)
Lemma reconcileStatus_deferred (w : Workflow) (tw : pbWorkflow) (world : W) :
  let body := reconcileStatus_body w tw world in
  let wb := (outcome body).1 in
  let patched := Client_StatusPatch wb w (world_after body) in
  reconcileStatus w tw world
  = ((outcome body).2, patched.2,
     (trace body ++ CallStatusPatch wb w patched.1
        :: status_patch_log patched.1)%list).
Proof.
  unfold reconcileStatus. unfold_run.
  destruct (reconcileStatus_body w tw world) as [[[wb ret] w1] t]; simpl.
  destruct (Client_StatusPatch wb w w1) as [[e|] w2]; reflexivity.
Qed.

(** Case analysis of a membership in an explicit list of fetches. *)
Ltac fetch_inv H :=
  repeat (apply elem_of_cons in H as [H|H]; [try discriminate H; simplify_eq|]);
  try (apply elem_of_nil in H; destruct H).

(** The loop over the fetched actions copies every getter, entry by
    entry. *)
Lemma statusAction_recorded (actions : list WorkflowAction) :
  Forall2 action_recorded actions (statusAction <$> actions).
Proof.
  induction actions as [|a actions IH]; simpl; constructor; [|exact IH].
  repeat split.
Qed.

(** The loop over the fetched events does the same. *)
Lemma statusEvent_recorded (events : list WorkflowActionStatus) :
  Forall2 event_recorded events (statusEvent <$> events).
Proof.
  induction events as [|e events IH]; simpl; constructor; [|exact IH].
  repeat split.
Qed.

(** The fields that the fetches of [reconcileStatus] leave in the object:
    the data are untouched by them, nothing but the status changes, and
    each status field is what its fetch returned or what it was. *)
Lemma status_sync_gathered (id : string) (w0 : Workflow)
    (fetches : list Call) (wb : Workflow) (out : Result * option error) :
  status_sync id w0 fetches wb out →
  Status_Data (Status wb) = Status_Data (Status w0)
  ∧ SetStatus (Status w0) wb = w0
  ∧ status_gathered id fetches w0 wb.
Proof.
  intros Hsync. split; [|split].
  - by destruct Hsync.
  - by destruct Hsync; destruct w0.
  - unfold status_gathered.
    destruct Hsync; simpl; repeat split.
    all: try (intros x Hin; fetch_inv Hin;
              first [ done | apply statusAction_recorded
                    | apply statusEvent_recorded ]).
    all: try done.
    all: intros Hnot; exfalso; eapply Hnot;
      solve [repeat first [apply list_elem_of_here
                          | apply list_elem_of_further]].
Qed.

(** C7. [reconcileStatus] fetches metadata, actions, events and state
    in that order and stops at the first fetch that fails, returning its
    error; on every one of these paths the deferred status patch is then
    issued with the object as the fetches left it.  That object differs
    from the resource in its status only; its [Status.Data] is the data of
    the execution, and every status field whose fetch returned holds what
    was fetched: the metadata as a string, one action for each fetched
    action with each field equal to the getter of the same name, one event
    for each fetched event likewise, the state by its name.  A field whose
    fetch did not return is as it was.  In particular, when the actions
    were fetched and the events fetch failed, the patched status holds the
    fetched actions, field by field, and the error is returned. *)
Theorem reconcileStatus_partial_status_preserved (w : Workflow)
    (tw : pbWorkflow) (world : W) :
  let run := reconcileStatus w tw world in
  (∃ fetches wb perr,
     trace run
       = (fetches ++ CallStatusPatch wb w perr :: status_patch_log perr)%list
     ∧ status_sync (GetId tw) (SetStatusData (GetData tw) w)
         fetches wb (outcome run)
     ∧ Status_Data (Status wb) = GetData tw
     ∧ SetStatus (Status w) wb = w
     ∧ status_gathered (GetId tw) fetches w wb)
  ∧ (∀ id actions e,
       CallTinkGetActions id (Ok actions) ∈ trace run →
       CallTinkGetEvents id (Err e) ∈ trace run →
       ∃ wb perr,
         CallStatusPatch wb w perr ∈ trace run
         ∧ Status_Actions (Status wb) = statusAction <$> actions
         ∧ Forall2 action_recorded actions (Status_Actions (Status wb))
         ∧ (outcome run).2
           = Some (Errorf "failed to get events for workflow" e)).
Proof.
  intros run. unfold run. rewrite reconcileStatus_deferred.
  pose proof (reconcileStatus_body_sync w tw world) as Hsync.
  cbv zeta in *.
  destruct (reconcileStatus_body w tw world) as [[[wb ret] w1] t].
  unfold outcome, world_after, trace in *; simpl in *.
  destruct (Client_StatusPatch wb w w1) as [perr w2]; simpl.
  destruct (status_sync_gathered _ _ _ _ _ Hsync) as (Hdata & Hrest & Hgath).
  split.
  - exists t, wb, perr. split; [done|]. split; [done|].
    split; [by rewrite Hdata|]. split; [|exact Hgath].
    apply (f_equal (SetStatus (Status w))) in Hrest.
    by destruct w.
  - intros id actions e Hact Hev. exists wb, perr.
    split; [set_solver|].
    rewrite elem_of_app in Hact, Hev.
    destruct Hact as [Hact|Hact];
      [|destruct perr; set_solver].
    destruct Hev as [Hev|Hev];
      [|destruct perr; set_solver].
    inversion Hsync; subst; fetch_inv Hact; fetch_inv Hev.
    repeat split. apply statusAction_recorded.
Qed.

(** *** From [Reconcile] down to the status sync *)

Lemma reaches_status_after (pre : list Call)
    (sub : Result * option error * W * list Call) :
  no_status_call pre → reaches_status sub →
  reaches_status (let '(b, w2, t2) := sub in (b, w2, (pre ++ t2)%list)).
Proof.
  intros Hpre (pre' & w & tw & world & -> & Hpre').
  exists (pre ++ pre')%list, w, tw, world. split.
  - by rewrite (assoc_L (++)).
  - by apply Forall_app.
Qed.

Lemma stops_early_after (pre : list Call)
    (sub : Result * option error * W * list Call) :
  no_status_call pre → stops_early sub →
  stops_early (let '(b, w2, t2) := sub in (b, w2, (pre ++ t2)%list)).
Proof.
  destruct sub as [[b w2] t2]. unfold stops_early, outcome, trace; simpl.
  intros Hpre [Herr Ht]. split; [done|]. by apply Forall_app.
Qed.

Lemma reaches_status_cons (c : Call) (r : Result * option error) (w : W)
    (t : list Call) :
  status_call c = false → reaches_status (r, w, t) →
  reaches_status (r, w, c :: t).
Proof.
  intros Hc H. by apply (reaches_status_after [c] _ ltac:(by constructor)) in H.
Qed.

Lemma stops_early_cons (c : Call) (r : Result * option error) (w : W)
    (t : list Call) :
  status_call c = false → stops_early (r, w, t) →
  stops_early (r, w, c :: t).
Proof.
  intros Hc H. by apply (stops_early_after [c] _ ltac:(by constructor)) in H.
Qed.

Lemma run_eta (run : Result * option error * W * list Call) :
  (outcome run, world_after run, trace run) = run.
Proof. by destruct run as [[? ?] ?]. Qed.

Ltac no_status := unfold no_status_call; repeat constructor.

Lemma reconcileNormal_with_cases (w : Workflow) (id : string) (world : W) :
  reaches_status (reconcileNormal_with w id world)
  ∨ stops_early (reconcileNormal_with w id world).
Proof.
  unfold reconcileNormal_with. unfold_run. repeat next_call.
  all: try (right; split; [done | no_status]).
  left.
  match goal with
  | |- context [reconcileStatus ?w' ?tw ?world'] =>
      exists [CallTinkGet id (Ok tw); CallPatch w' w None], w', tw, world'
  end.
  split; [|no_status].
  unfold outcome, world_after, trace.
  by destruct (reconcileStatus _ _ _) as [[? ?] ?].
Qed.

Lemma reconcileNormal_cases (w : Workflow) (world : W) :
  reaches_status (reconcileNormal w world)
  ∨ stops_early (reconcileNormal w world).
Proof.
  unfold reconcileNormal. case_bool_decide; [|apply reconcileNormal_with_cases].
  unfold createWorkflow. unfold_run. repeat next_call;
    try (right; split; [done | no_status]).
  match goal with
  | |- context [reconcileNormal_with ?w ?id ?world] =>
      destruct (reconcileNormal_with_cases w id world) as [Hr|Hs];
      [left; repeat (apply reaches_status_after; [no_status|])
      |right; repeat (apply stops_early_after; [no_status|])];
      assumption
  end.
Qed.

Lemma reconcileDelete_no_status (w : Workflow) (world : W) :
  no_status_call (trace (reconcileDelete w world)).
Proof.
  unfold reconcileDelete. unfold_run.
  case_bool_decide; repeat next_call;
    repeat match goal with
           | |- context [if negb (errors_Is_ErrNotFound ?e) then _ else _] =>
               destruct (errors_Is_ErrNotFound e); simpl
           end;
    repeat next_call; no_status.
Qed.

Lemma AddFinalizer_DeletionTimestamp (w : Workflow) (finalizer : string) :
  DeletionTimestamp_IsZero (AddFinalizer w finalizer)
  = DeletionTimestamp_IsZero w.
Proof. unfold AddFinalizer. by destruct (ContainsFinalizer w finalizer). Qed.

Lemma AddFinalizer_TinkID (w : Workflow) (finalizer : string) :
  TinkID (AddFinalizer w finalizer) = TinkID w.
Proof. unfold AddFinalizer. by destruct (ContainsFinalizer w finalizer). Qed.

Lemma AddFinalizer_idempotent (w : Workflow) (finalizer : string) :
  AddFinalizer (AddFinalizer w finalizer) finalizer = AddFinalizer w finalizer.
Proof.
  unfold AddFinalizer at 1.
  assert (ContainsFinalizer (AddFinalizer w finalizer) finalizer = true)
    as ->; [|done].
  apply bool_decide_eq_true. unfold AddFinalizer, ContainsFinalizer.
  case_bool_decide; [done|]. simpl. set_solver.
Qed.

Lemma AddFinalizer_elem (w : Workflow) (finalizer : string) :
  finalizer ∈ Finalizers (AddFinalizer w finalizer).
Proof.
  unfold AddFinalizer, ContainsFinalizer. case_bool_decide; [done|].
  simpl. set_solver.
Qed.

(** What [Reconcile] does with a loaded resource, up to the branch. *)
Lemma Reconcile_loaded (req : Request) (world world1 : W) (wf : Workflow) :
  Client_GetWorkflow (req_NamespacedName req) world = (Ok wf, world1) →
  let loaded := CallGetWorkflow (req_NamespacedName req) (Ok wf) in
  let wf' := AddFinalizer wf WorkflowFinalizer in
  let branch :=
    if negb (DeletionTimestamp_IsZero wf) then reconcileDelete wf'
    else reconcileNormal wf' in
  (ContainsFinalizer wf WorkflowFinalizer = true
   ∧ Reconcile req world
     = (outcome (branch world1), world_after (branch world1),
        loaded :: trace (branch world1)))
  ∨ (∃ world2,
       ContainsFinalizer wf WorkflowFinalizer = false
       ∧ Client_Patch wf' wf world1 = (None, world2)
       ∧ Reconcile req world
         = (outcome (branch world2), world_after (branch world2),
            loaded :: CallPatch wf' wf None :: trace (branch world2)))
  ∨ (∃ e world2,
       ContainsFinalizer wf WorkflowFinalizer = false
       ∧ Client_Patch wf' wf world1 = (Some e, world2)
       ∧ Reconcile req world
         = ((Result_zero,
             Some (Errorf "failed to ensure finalizer on workflow" e)),
            world2,
            [loaded; CallPatch wf' wf (Some e)])).
Proof.
  intros Hget loaded wf' branch. unfold Reconcile, EnsureFinalizer.
  unfold_run. rewrite Hget. cbn beta iota zeta.
  assert (Hz : DeletionTimestamp_IsZero wf' = DeletionTimestamp_IsZero wf)
    by apply AddFinalizer_DeletionTimestamp.
  destruct (ContainsFinalizer wf WorkflowFinalizer) eqn:Hfin.
  - left. split; [done|]. cbn beta iota zeta.
    assert (Hwf : wf' = wf)
      by (unfold wf', AddFinalizer; by rewrite Hfin).
    subst branch. rewrite Hwf.
    destruct (negb (DeletionTimestamp_IsZero wf)); cbn beta iota zeta.
    + by destruct (reconcileDelete wf world1) as [[? ?] ?].
    + by destruct (reconcileNormal wf world1) as [[? ?] ?].
  - right. fold wf'.
    destruct (Client_Patch wf' wf world1) as [[e|] world2] eqn:Hpatch;
      cbn beta iota zeta.
    + right. by exists e, world2.
    + left. exists world2. split; [done|]. split; [done|].
      subst branch. rewrite Hz.
      destruct (negb (DeletionTimestamp_IsZero wf)); cbn beta iota zeta.
      * by destruct (reconcileDelete wf' world2) as [[? ?] ?].
      * by destruct (reconcileNormal wf' world2) as [[? ?] ?].
Qed.

Lemma Reconcile_status_cases (req : Request) (world : W) :
  reaches_status (Reconcile req world)
  ∨ no_status_call (trace (Reconcile req world)).
Proof.
  destruct (Client_GetWorkflow (req_NamespacedName req) world)
    as [[wf|err] world1] eqn:Hget.
  - assert (Hbranch : ∀ world',
      let branch :=
        if negb (DeletionTimestamp_IsZero wf)
        then reconcileDelete (AddFinalizer wf WorkflowFinalizer)
        else reconcileNormal (AddFinalizer wf WorkflowFinalizer) in
      reaches_status (branch world')
      ∨ no_status_call (trace (branch world'))).
    { intros world'. destruct (negb (DeletionTimestamp_IsZero wf)); simpl.
      - right. apply reconcileDelete_no_status.
      - destruct (reconcileNormal_cases (AddFinalizer wf WorkflowFinalizer)
                    world') as [Hr|[_ Hs]]; [by left | by right]. }
    destruct (Reconcile_loaded req world world1 wf Hget)
      as [[_ ->]|[(world2 & _ & _ & ->)|(e & world2 & _ & _ & ->)]].
    + destruct (Hbranch world1) as [Hr|Hs].
      * left. apply reaches_status_cons; [done|]. by rewrite run_eta.
      * right. unfold trace at 1; simpl. by constructor.
    + destruct (Hbranch world2) as [Hr|Hs].
      * left. do 2 (apply reaches_status_cons; [done|]). by rewrite run_eta.
      * right. unfold trace at 1; simpl. by repeat constructor.
    + right. no_status.
  - right. rewrite (Reconcile_load_failed req world world1 err Hget).
    destruct (apierrors_IsNotFound err); no_status.
Qed.

Lemma Reconcile_live_cases (req : Request) (world world1 : W)
    (wf : Workflow) :
  Client_GetWorkflow (req_NamespacedName req) world = (Ok wf, world1) →
  DeletionTimestamp_IsZero wf = true →
  reaches_status (Reconcile req world) ∨ stops_early (Reconcile req world).
Proof.
  intros Hget Hlive.
  destruct (Reconcile_loaded req world world1 wf Hget)
    as [[_ ->]|[(world2 & _ & _ & ->)|(e & world2 & _ & _ & ->)]];
    rewrite ?Hlive; simpl.
  - destruct (reconcileNormal_cases (AddFinalizer wf WorkflowFinalizer)
                world1) as [Hr|Hs].
    + left. apply reaches_status_cons; [done|]. by rewrite run_eta.
    + right. apply stops_early_cons; [done|]. by rewrite run_eta.
  - destruct (reconcileNormal_cases (AddFinalizer wf WorkflowFinalizer)
                world2) as [Hr|Hs].
    + left. do 2 (apply reaches_status_cons; [done|]). by rewrite run_eta.
    + right. do 2 (apply stops_early_cons; [done|]). by rewrite run_eta.
  - right. split; [done | no_status].
Qed.

(** A status call of a run that reaches the status sync is one of the
    calls of [reconcileStatus]. *)
Lemma no_status_call_elem (c : Call) (t : list Call) :
  no_status_call t → status_call c = true → c ∉ t.
Proof.
  unfold no_status_call. rewrite Forall_forall. intros Hall Hc Hin.
  specialize (Hall c Hin). congruence.
Qed.

Lemma status_call_in_sync (c : Call) (pre sub : list Call) :
  no_status_call pre → status_call c = true →
  c ∈ (pre ++ sub)%list → c ∈ sub.
Proof.
  intros Hpre Hc [Hin|Hin]%elem_of_app; [|done].
  by destruct (no_status_call_elem c pre).
Qed.

(** *** What the trace of [reconcileStatus] tells *)

Lemma reconcileStatus_state (w : Workflow) (tw : pbWorkflow) (world : W)
    (id : string) (s : State) :
  CallTinkGetState id (Ok s) ∈ trace (reconcileStatus w tw world) →
  outcome (reconcileStatus w tw world) = (requeue_until_success s, None)
  ∧ ∀ id' r, CallTinkGetState id' r ∈ trace (reconcileStatus w tw world) →
             id' = id ∧ r = Ok s.
Proof.
  rewrite reconcileStatus_deferred.
  pose proof (reconcileStatus_body_sync w tw world) as Hsync.
  cbv zeta in *.
  destruct (reconcileStatus_body w tw world) as [[[wb ret] w1] t].
  unfold outcome, world_after, trace in *; simpl in *.
  destruct (Client_StatusPatch wb w w1) as [perr w2]; simpl.
  intros Hin.
  assert (Hin' : CallTinkGetState id (Ok s) ∈ t)
    by (destruct perr; set_solver).
  assert (Hall : ∀ id' r, CallTinkGetState id' r
                          ∈ (t ++ CallStatusPatch wb w perr
                               :: status_patch_log perr)%list
                          → CallTinkGetState id' r ∈ t)
    by (intros; destruct perr; set_solver).
  inversion Hsync; subst; try set_solver.
  assert (s0 = s ∧ id = GetId tw) as [-> ->] by set_solver.
  split; [done|]. intros id' r Hr%Hall. set_solver.
Qed.

Lemma reconcileStatus_success (w : Workflow) (tw : pbWorkflow) (world : W)
    (res : Result) :
  outcome (reconcileStatus w tw world) = (res, None) →
  ∃ s, CallTinkGetState (GetId tw) (Ok s) ∈ trace (reconcileStatus w tw world)
       ∧ res = requeue_until_success s.
Proof.
  rewrite reconcileStatus_deferred.
  pose proof (reconcileStatus_body_sync w tw world) as Hsync.
  cbv zeta in *.
  destruct (reconcileStatus_body w tw world) as [[[wb ret] w1] t].
  unfold outcome, world_after, trace in *; simpl in *.
  intros ->. inversion Hsync; subst. exists s. split; [set_solver|done].
Qed.

Lemma reconcileStatus_patch_logged (w : Workflow) (tw : pbWorkflow)
    (world : W) (obj base : Workflow) (e : error) :
  CallStatusPatch obj base (Some e) ∈ trace (reconcileStatus w tw world) →
  CallLogError e "Failed to patch workflow status"
    ∈ trace (reconcileStatus w tw world).
Proof.
  rewrite reconcileStatus_deferred.
  pose proof (reconcileStatus_body_sync w tw world) as Hsync.
  cbv zeta in *.
  destruct (reconcileStatus_body w tw world) as [[[wb ret] w1] t].
  unfold outcome, world_after, trace in *; simpl in *.
  destruct (Client_StatusPatch wb w w1) as [perr w2]; simpl.
  intros Hin.
  assert (perr = Some e) as ->.
  { apply elem_of_app in Hin as [Hin|Hin].
    - inversion Hsync; subst; set_solver.
    - destruct perr; set_solver. }
  set_solver.
Qed.

(** C4. When [Reconcile] loads a resource that is not being deleted and
    returns no error, the pass fetched the state of the remote execution
    exactly once, and the result is a requeue after exactly one minute
    (60 000 000 000 ns) when that state is not the terminal success, and
    the zero result, no requeue, when it is. *)
Theorem Reconcile_requeue_until_success (req : Request) (world world1 : W)
    (wf : Workflow) (res : Result) :
  Client_GetWorkflow (req_NamespacedName req) world = (Ok wf, world1) →
  DeletionTimestamp_IsZero wf = true →
  outcome (Reconcile req world) = (res, None) →
  ∃ id s,
    CallTinkGetState id (Ok s) ∈ trace (Reconcile req world)
    ∧ (∀ id' r, CallTinkGetState id' r ∈ trace (Reconcile req world) →
                id' = id ∧ r = Ok s)
    ∧ (s ≠ State_STATE_SUCCESS →
       res = {| Requeue := false; RequeueAfter := 60000000000 |})
    ∧ (s = State_STATE_SUCCESS →
       res = {| Requeue := false; RequeueAfter := 0 |}).
Proof.
  intros Hget Hlive Hres.
  destruct (Reconcile_live_cases req world world1 wf Hget Hlive)
    as [(pre & w & tw & world' & Hrun & Hpre)|[Herr _]];
    [|by rewrite Hres in Herr].
  rewrite Hrun in Hres |- *. unfold outcome at 1 in Hres; simpl in Hres.
  destruct (reconcileStatus_success w tw world' res Hres) as (s & Hin & ->).
  destruct (reconcileStatus_state w tw world' _ s Hin) as [_ Huniq].
  exists (GetId tw), s. unfold trace at 1 3; simpl.
  split; [set_solver|]. split.
  { intros id' r Hr. apply Huniq.
    by apply (status_call_in_sync _ pre). }
  unfold requeue_until_success.
  split; intros Hs; case_bool_decide; done.
Qed.

(** C9. A failure of the deferred status patch is logged and not
    returned: [reconcileStatus] returns the values of its body whatever
    the patch answers, and a pass of [Reconcile] whose status patch
    failed with [e] has logged [e] and, when its state fetch succeeded
    with [s], still returns no error, with the zero result for the
    terminal success and the one-minute requeue otherwise. *)
Theorem Reconcile_status_patch_failure_only_logged (req : Request)
    (world : W) :
  (∀ w tw world',
     outcome (reconcileStatus w tw world')
     = (outcome (reconcileStatus_body w tw world')).2)
  ∧ (∀ obj base e,
       CallStatusPatch obj base (Some e) ∈ trace (Reconcile req world) →
       CallLogError e "Failed to patch workflow status"
         ∈ trace (Reconcile req world)
       ∧ ∀ id s,
           CallTinkGetState id (Ok s) ∈ trace (Reconcile req world) →
           outcome (Reconcile req world)
           = (if bool_decide (s = State_STATE_SUCCESS)
              then {| Requeue := false; RequeueAfter := 0 |}
              else {| Requeue := false; RequeueAfter := 60000000000 |},
              None)).
Proof.
  split.
  { intros w tw world'. by rewrite reconcileStatus_deferred. }
  intros obj base e Hpatch.
  destruct (Reconcile_status_cases req world)
    as [(pre & w & tw & world' & Hrun & Hpre)|Hnone];
    [|by destruct (no_status_call_elem (CallStatusPatch obj base (Some e)) _
                    Hnone eq_refl Hpatch)].
  rewrite Hrun in Hpatch |- *. unfold trace at 1 in Hpatch; simpl in Hpatch.
  apply (status_call_in_sync _ pre) in Hpatch; [|done..].
  split.
  - unfold trace at 1; simpl. apply elem_of_app. right.
    by apply (reconcileStatus_patch_logged w tw world' obj base).
  - intros id s Hstate. unfold trace at 1 in Hstate; simpl in Hstate.
    apply (status_call_in_sync _ pre) in Hstate; [|done..].
    destruct (reconcileStatus_state w tw world' id s Hstate) as [Hout _].
    unfold outcome at 1; simpl. rewrite Hout.
    unfold requeue_until_success. by case_bool_decide.
Qed.

(** *** Creation *)

Ltac no_create := unfold no_create_call; repeat constructor.

Lemma no_create_call_after (pre : list Call)
    (sub : Result * option error * W * list Call) :
  no_create_call pre → no_create_call (trace sub) →
  no_create_call
    (trace (let '(b, w2, t2) := sub in (b, w2, (pre ++ t2)%list))).
Proof.
  destruct sub as [[b w2] t2]. unfold trace; simpl.
  intros. by apply Forall_app.
Qed.

Lemma reconcileStatus_no_create (w : Workflow) (tw : pbWorkflow) (world : W) :
  no_create_call (trace (reconcileStatus w tw world)).
Proof.
  rewrite reconcileStatus_deferred.
  pose proof (reconcileStatus_body_sync w tw world) as Hsync.
  cbv zeta in *.
  destruct (reconcileStatus_body w tw world) as [[[wb ret] w1] t].
  unfold outcome, world_after, trace in *; simpl in *.
  destruct (Client_StatusPatch wb w w1) as [perr w2]; simpl.
  apply Forall_app. split.
  - inversion Hsync; no_create.
  - destruct perr; no_create.
Qed.

Lemma reconcileNormal_with_no_create (w : Workflow) (id : string)
    (world : W) :
  no_create_call (trace (reconcileNormal_with w id world)).
Proof.
  unfold reconcileNormal_with. unfold_run. repeat next_call;
    try (no_create; fail).
  repeat (apply no_create_call_after; [no_create|]).
  apply reconcileStatus_no_create.
Qed.

Lemma reconcileDelete_no_create (w : Workflow) (world : W) :
  no_create_call (trace (reconcileDelete w world)).
Proof.
  unfold reconcileDelete. unfold_run.
  case_bool_decide; repeat next_call;
    repeat match goal with
           | |- context [if negb (errors_Is_ErrNotFound ?e) then _ else _] =>
               destruct (errors_Is_ErrNotFound e); simpl
           end;
    repeat next_call; no_create.
Qed.

(** C2. When the resource that [Reconcile] loads already carries a
    remote id, the pass makes no [Create] call, whatever the
    collaborators answer. *)
Theorem Reconcile_idempotent_creation (req : Request) (world world1 : W)
    (wf : Workflow) :
  Client_GetWorkflow (req_NamespacedName req) world = (Ok wf, world1) →
  TinkID wf ≠ "" →
  ∀ templateID hardwareID r,
    CallTinkCreate templateID hardwareID r ∉ trace (Reconcile req world).
Proof.
  intros Hget Hid templateID hardwareID r Hin.
  assert (Hbranch : ∀ world',
    no_create_call
      (trace ((if negb (DeletionTimestamp_IsZero wf)
               then reconcileDelete (AddFinalizer wf WorkflowFinalizer)
               else reconcileNormal (AddFinalizer wf WorkflowFinalizer))
                world'))).
  { intros world'. destruct (negb (DeletionTimestamp_IsZero wf)).
    - apply reconcileDelete_no_create.
    - unfold reconcileNormal. rewrite AddFinalizer_TinkID.
      rewrite bool_decide_eq_false_2 by done.
      apply reconcileNormal_with_no_create. }
  assert (Hall : no_create_call (trace (Reconcile req world))).
  { destruct (Reconcile_loaded req world world1 wf Hget)
      as [[_ ->]|[(world2 & _ & _ & ->)|(e & world2 & _ & _ & ->)]];
      unfold trace at 1; simpl.
    - constructor; [done | apply Hbranch].
    - do 2 (constructor; [done|]). apply Hbranch.
    - no_create. }
  unfold no_create_call in Hall. rewrite Forall_forall in Hall.
  specialize (Hall _ Hin). discriminate.
Qed.

(** C3. Whenever a pass of [Reconcile] calls [Create], the load of the
    resource comes before the call, and either the loaded resource
    carried the finalizer, or the patch of the resource with the finalizer
    added was made and succeeded before the call; adding the finalizer
    puts it on the resource, and adding it again changes nothing. *)
Theorem Reconcile_finalizer_before_create (req : Request) (world : W)
    (pre post : list Call) (templateID hardwareID : string)
    (r : result string) :
  trace (Reconcile req world)
    = (pre ++ CallTinkCreate templateID hardwareID r :: post)%list →
  ∃ wf,
    CallGetWorkflow (req_NamespacedName req) (Ok wf) ∈ pre
    ∧ WorkflowFinalizer ∈ Finalizers (AddFinalizer wf WorkflowFinalizer)
    ∧ AddFinalizer (AddFinalizer wf WorkflowFinalizer) WorkflowFinalizer
      = AddFinalizer wf WorkflowFinalizer
    ∧ (WorkflowFinalizer ∈ Finalizers wf
       ∨ CallPatch (AddFinalizer wf WorkflowFinalizer) wf None ∈ pre).
Proof.
  intros Htrace.
  assert (Hin : CallTinkCreate templateID hardwareID r
                ∈ trace (Reconcile req world))
    by (rewrite Htrace; set_solver).
  destruct (Client_GetWorkflow (req_NamespacedName req) world)
    as [[wf|err] world1] eqn:Hget.
  - exists wf.
    assert (Hidem : WorkflowFinalizer
                    ∈ Finalizers (AddFinalizer wf WorkflowFinalizer)
                    ∧ AddFinalizer (AddFinalizer wf WorkflowFinalizer)
                        WorkflowFinalizer
                      = AddFinalizer wf WorkflowFinalizer).
    { split; [apply AddFinalizer_elem | apply AddFinalizer_idempotent]. }
    destruct Hidem as [Helem Hidem].
    destruct (Reconcile_loaded req world world1 wf Hget)
      as [[Hfin Hrun]|[(world2 & Hfin & _ & Hrun)
                      |(e & world2 & _ & _ & Hrun)]];
      rewrite Hrun in Htrace, Hin; unfold trace at 1 in Htrace;
      unfold trace at 1 in Hin; simpl in Htrace, Hin.
    + destruct pre as [|c pre]; [discriminate|].
      injection Htrace as Hc _; subst c. split; [set_solver|].
      do 2 (split; [done|]). left.
      unfold ContainsFinalizer in Hfin. by apply bool_decide_eq_true in Hfin.
    + destruct pre as [|c pre]; [discriminate|].
      injection Htrace as Hc Htrace; subst c.
      destruct pre as [|c pre]; [discriminate|].
      injection Htrace as Hc _; subst c. split; [set_solver|].
      do 2 (split; [done|]). right. set_solver.
    + set_solver.
  - rewrite (Reconcile_load_failed req world world1 err Hget) in Hin.
    destruct (apierrors_IsNotFound err); set_solver.
Qed.

(** In [reconcileNormal], between a successful [Create] and the patch
    that records the id stands the [Get] of the new execution: when it
    fails the pass ends there, and no patch is made. *)
Lemma reconcileNormal_get_failure (w : Workflow) (world world1 world2 : W)
    (id : string) (t : list Call) (e : error) :
  TinkID w = "" →
  createWorkflow w world = (Ok id, world1, t) →
  WorkflowClient_Get id world1 = (Err e, world2) →
  reconcileNormal w world
  = ((Result_zero, Some (Errorf "failed to get workflow" e)), world2,
     (t ++ [CallTinkGet id (Err e)])%list).
Proof.
  intros Hid Hcreate Hget. unfold reconcileNormal.
  rewrite bool_decide_eq_true_2 by done.
  unfold mbind, M_bind. rewrite Hcreate.
  unfold reconcileNormal_with. unfold_run. by rewrite Hget.
Qed.

End ReconcilerProperties.

(** * Runs in the in-memory world *)

Section Runs.
Import Fake.

(** C1. The resource ["wf-1"] has no remote id; [Create] answers ["R1"]
    and the [Get] that follows fails.  The pass ends with the error of
    [Get] right after the [Create]: the id is patched nowhere, the stored
    resource still has an empty remote id although the execution ["R1"]
    exists, and the next pass creates a second execution, ["R2"]. *)
Theorem Reconcile_created_id_lost_when_get_fails :
  let world := failing_Get unavailable (world1 wf1) in
  let first := Reconcile req1 world in
  let second := Reconcile req1 (world_after first) in
  trace first
    = [CallGetWorkflow key1 (Ok wf1);
       CallPatch (AddFinalizer wf1 WorkflowFinalizer) wf1 None;
       CallGetHardware (ObjectKey_of_name "hw-1")
         (Ok {| Hardware_Spec_ID := "H1" |});
       CallGetTemplate (ObjectKey_of_name "tpl-1")
         (Ok {| Template_TinkID := "T1" |});
       CallTinkCreate "T1" "H1" (Ok "R1");
       CallTinkGet "R1" (Err unavailable)]
  ∧ outcome first
    = (Result_zero, Some (Errorf "failed to get workflow" unavailable))
  ∧ TinkID <$> workflows (world_after first) !! "wf-1" = Some ""
  ∧ ex_state <$> executions (world_after first) !! "R1"
    = Some State_STATE_PENDING
  ∧ trace second
    = [CallGetWorkflow key1 (Ok (AddFinalizer wf1 WorkflowFinalizer));
       CallGetHardware (ObjectKey_of_name "hw-1")
         (Ok {| Hardware_Spec_ID := "H1" |});
       CallGetTemplate (ObjectKey_of_name "tpl-1")
         (Ok {| Template_TinkID := "T1" |});
       CallTinkCreate "T1" "H1" (Ok "R2");
       CallTinkGet "R2" (Err unavailable)].
Proof. repeat split; vm_compute; reflexivity. Qed.

(** The first scenario of the spec: ["wf-1"] is created as ["R1"], the
    id is recorded, and the pass asks for a requeue after one minute. *)
Example scenario_create :
  let run := Reconcile req1 (world1 wf1) in
  outcome run = ({| Requeue := false; RequeueAfter := 60000000000 |}, None)
  ∧ CallTinkCreate "T1" "H1" (Ok "R1") ∈ trace run
  ∧ TinkID <$> workflows (world_after run) !! "wf-1" = Some "R1".
Proof.
  split; [vm_compute; reflexivity|].
  split; [|vm_compute; reflexivity].
  vm_compute. do 4 apply list_elem_of_further. apply list_elem_of_here.
Qed.

(** C2 at ["wf-1"] with remote id ["R1"], execution running. *)
Lemma Reconcile_idempotent_creation_witness :
  TinkID wf1_R1 ≠ ""
  ∧ ∀ templateID hardwareID r,
      CallTinkCreate templateID hardwareID r
      ∉ trace (Reconcile req1 (world_of wf1_R1 (R1_in State_STATE_RUNNING))).
Proof.
  assert (Hid : TinkID wf1_R1 ≠ "") by (vm_compute; discriminate).
  split; [exact Hid|].
  apply (Reconcile_idempotent_creation req1
           (world_of wf1_R1 (R1_in State_STATE_RUNNING))
           (world_of wf1_R1 (R1_in State_STATE_RUNNING)) wf1_R1).
  - vm_compute; reflexivity.
  - exact Hid.
Defined.

(** C3 at the first pass over ["wf-1"]. *)
Lemma Reconcile_finalizer_before_create_witness :
  let run := Reconcile req1 (world1 wf1) in
  ∃ wf,
    CallGetWorkflow key1 (Ok wf) ∈ take 4 (trace run)
    ∧ WorkflowFinalizer ∈ Finalizers (AddFinalizer wf WorkflowFinalizer)
    ∧ AddFinalizer (AddFinalizer wf WorkflowFinalizer) WorkflowFinalizer
      = AddFinalizer wf WorkflowFinalizer
    ∧ (WorkflowFinalizer ∈ Finalizers wf
       ∨ CallPatch (AddFinalizer wf WorkflowFinalizer) wf None
         ∈ take 4 (trace run)).
Proof.
  apply (Reconcile_finalizer_before_create req1 (world1 wf1)
           (take 4 (trace (Reconcile req1 (world1 wf1))))
           (drop 5 (trace (Reconcile req1 (world1 wf1))))
           "T1" "H1" (Ok "R1")).
  vm_compute; reflexivity.
Defined.

(** C4 at the first pass over ["wf-1"]: the execution is pending. *)
Lemma Reconcile_requeue_until_success_witness :
  let run := Reconcile req1 (world1 wf1) in
  ∃ id s,
    CallTinkGetState id (Ok s) ∈ trace run
    ∧ (∀ id' r, CallTinkGetState id' r ∈ trace run → id' = id ∧ r = Ok s)
    ∧ (s ≠ State_STATE_SUCCESS →
       {| Requeue := false; RequeueAfter := 60000000000 |}
       = {| Requeue := false; RequeueAfter := 60000000000 |})
    ∧ (s = State_STATE_SUCCESS →
       {| Requeue := false; RequeueAfter := 60000000000 |}
       = {| Requeue := false; RequeueAfter := 0 |}).
Proof.
  apply (Reconcile_requeue_until_success req1 (world1 wf1) (world1 wf1) wf1
           {| Requeue := false; RequeueAfter := 60000000000 |}).
  - vm_compute; reflexivity.
  - vm_compute; reflexivity.
  - vm_compute; reflexivity.
Defined.

(** The third scenario of the spec: ["wf-1"] is being deleted and its
    execution is already gone. *)
Example scenario_delete :
  let run := Reconcile req1 gone in
  outcome run = (Result_zero, None)
  ∧ trace run
    = [CallGetWorkflow key1 (Ok wf1_deleting);
       CallTinkDelete "R1" (Some ErrNotFound);
       CallPatch (RemoveFinalizer wf1_deleting WorkflowFinalizer)
         wf1_deleting None]
  ∧ Finalizers <$> workflows (world_after run) !! "wf-1" = Some [].
Proof. repeat split; vm_compute; reflexivity. Qed.

(** C5 at that resource: [Delete] answers Not-Found, twice. *)
Lemma reconcileDelete_not_found_is_success_witness :
  let first := reconcileDelete wf1_deleting gone in
  let second := reconcileDelete wf1_deleting (world_after first) in
  outcome first = (Result_zero, None)
  ∧ outcome second = (Result_zero, None)
  ∧ CallPatch (RemoveFinalizer wf1_deleting WorkflowFinalizer)
      wf1_deleting None ∈ trace first
  ∧ CallPatch (RemoveFinalizer wf1_deleting WorkflowFinalizer)
      wf1_deleting None ∈ trace second
  ∧ (WorkflowFinalizer
     ∉ Finalizers (RemoveFinalizer wf1_deleting WorkflowFinalizer)).
Proof.
  assert (Hid : TinkID wf1_deleting ≠ "") by (vm_compute; discriminate).
  assert (Hdel : WorkflowClient_Delete (TinkID wf1_deleting) gone
                 = (Some ErrNotFound, gone)) by (vm_compute; reflexivity).
  assert (Hpatch : Client_Patch
                     (RemoveFinalizer wf1_deleting WorkflowFinalizer)
                     wf1_deleting gone = (None, gone_patched))
    by (vm_compute; reflexivity).
  assert (Hdel2 : WorkflowClient_Delete (TinkID wf1_deleting) gone_patched
                  = (Some ErrNotFound, gone_patched))
    by (vm_compute; reflexivity).
  assert (Hpatch2 : Client_Patch
                      (RemoveFinalizer wf1_deleting WorkflowFinalizer)
                      wf1_deleting gone_patched = (None, gone_patched))
    by (vm_compute; reflexivity).
  destruct (reconcileDelete_not_found_is_success wf1_deleting gone gone
              gone_patched ErrNotFound None Hid Hdel eq_refl Hpatch)
    as (_ & _ & _ & _ & _ & Htwice).
  exact (Htwice wf1_deleting ErrNotFound gone_patched gone_patched eq_refl
           eq_refl Hdel2 eq_refl Hpatch2).
Defined.

(** C6 at that resource when the remote service cannot be reached. *)
Lemma reconcileDelete_error_keeps_finalizer_witness :
  let world := failing_Delete unavailable gone in
  reconcileDelete wf1_deleting world
  = ((Result_zero,
      Some (Errorf "failed to delete workflow from Tinkerbell" unavailable)),
     world,
     [CallTinkDelete "R1" (Some unavailable);
      CallLogError unavailable "Failed to delete workflow from Tinkerbell"])
  ∧ ∀ obj base perr,
      CallPatch obj base perr ∉ trace (reconcileDelete wf1_deleting world).
Proof.
  apply (proj1 (reconcileDelete_error_keeps_finalizer wf1_deleting
                  (failing_Delete unavailable gone))
           unavailable (failing_Delete unavailable gone)).
  - vm_compute; discriminate.
  - vm_compute; reflexivity.
  - vm_compute; reflexivity.
Defined.

(** C7 at ["wf-1"] with its execution ["R1"], where the events cannot
    be fetched. *)
Lemma reconcileStatus_partial_status_preserved_witness :
  let world :=
    failing_GetEvents unavailable (world_of wf1_R1 (R1_in State_STATE_RUNNING)) in
  let run := reconcileStatus wf1_R1 {| GetId := "R1"; GetData := "{}" |} world in
  ∃ wb perr,
    CallStatusPatch wb wf1_R1 perr ∈ trace run
    ∧ Status_Actions (Status wb) = statusAction <$> [hello_action]
    ∧ Forall2 action_recorded [hello_action] (Status_Actions (Status wb))
    ∧ (outcome run).2
      = Some (Errorf "failed to get events for workflow" unavailable).
Proof.
  apply (proj2 (reconcileStatus_partial_status_preserved wf1_R1
                  {| GetId := "R1"; GetData := "{}" |}
                  (failing_GetEvents unavailable
                     (world_of wf1_R1 (R1_in State_STATE_RUNNING))))
           "R1" [hello_action] unavailable).
  - vm_compute. apply list_elem_of_further, list_elem_of_here.
  - vm_compute. do 2 apply list_elem_of_further. apply list_elem_of_here.
Defined.

(** C8 at a store that does not hold ["wf-1"]. *)
Lemma Reconcile_resource_absent_witness :
  Reconcile req1 empty_store
  = ((Result_zero, None), empty_store,
     [CallGetWorkflow key1 (Err (StatusError StatusReasonNotFound))]).
Proof.
  assert (Hget : Client_GetWorkflow (req_NamespacedName req1) empty_store
                 = (Err (StatusError StatusReasonNotFound), empty_store))
    by (vm_compute; reflexivity).
  apply (proj1 (Reconcile_resource_absent req1 empty_store empty_store
                  (StatusError StatusReasonNotFound) Hget)).
  reflexivity.
Defined.

(** C9 at ["wf-1"] with its execution ["R1"] finished, where the status
    cannot be patched. *)
Lemma Reconcile_status_patch_failure_only_logged_witness :
  let world :=
    failing_StatusPatch unavailable
      (world_of wf1_R1 (R1_in State_STATE_SUCCESS)) in
  CallLogError unavailable "Failed to patch workflow status"
    ∈ trace (Reconcile req1 world)
  ∧ outcome (Reconcile req1 world)
    = ({| Requeue := false; RequeueAfter := 0 |}, None).
Proof.
  intros world.
  assert (Hpatch : ∃ obj base,
            CallStatusPatch obj base (Some unavailable)
            ∈ trace (Reconcile req1 world)).
  { eexists _, _. vm_compute. do 7 apply list_elem_of_further.
    apply list_elem_of_here. }
  destruct Hpatch as (obj & base & Hpatch).
  destruct (proj2 (Reconcile_status_patch_failure_only_logged req1 world)
              obj base unavailable Hpatch) as [Hlog Hout].
  split; [exact Hlog|].
  apply (Hout "R1" State_STATE_SUCCESS).
  vm_compute. do 6 apply list_elem_of_further. apply list_elem_of_here.
Defined.

End Runs.

(** * Properties of the MAC address generator *)

Section GeneratorProperties.
Import Generators.

Lemma unicast_local_bits (b0 : Z) :
  Z.testbit (unicast_local b0) 0 = false
  ∧ Z.testbit (unicast_local b0) 1 = true.
Proof.
  unfold unicast_local. rewrite !Z.lor_spec, !Z.land_spec. simpl.
  by rewrite andb_false_r, orb_true_r.
Qed.

Lemma unicast_local_range (b0 : Z) : 0 ≤ unicast_local b0 < 256.
Proof.
  unfold unicast_local.
  assert (Ha : Z.land b0 254 = Z.land (b0 mod 256) 254).
  { change 256 with (2 ^ 8). rewrite <- Z.land_ones by lia.
    by rewrite <- Z.land_assoc. }
  assert (Hm : 0 ≤ b0 mod 256 < 256) by (apply Z.mod_pos_bound; lia).
  assert (Hlo : 0 ≤ Z.land b0 254) by (apply Z.land_nonneg; lia).
  split; [apply Z.lor_nonneg; lia|].
  change 256 with (2 ^ 8). apply Z.log2_lt_cancel.
  rewrite Z.log2_pow2 by lia. rewrite Z.log2_lor by lia.
  apply Z.max_lub_lt; [|done].
  rewrite Ha.
  pose proof (Z.log2_land (b0 mod 256) 254 ltac:(lia) ltac:(lia)) as Hle.
  assert (Z.log2 254 = 7) by reflexivity. lia.
Qed.

(** The low digit of the first octet in the text of the address. *)
Lemma unicast_local_low_digit (b0 : Z) :
  hexDigit_at (Z.land (unicast_local b0) 15)
  ∈ ["2"; "6"; "a"; "e"]%char.
Proof.
  unfold unicast_local.
  assert (Hrw : Z.land (Z.lor (Z.land b0 254) 2) 15
                = Z.lor (Z.land (b0 mod 16) 14) 2).
  { rewrite Z.land_lor_distr_l, <- Z.land_assoc. simpl (Z.land 254 15).
    simpl (Z.land 2 15). f_equal.
    change 16 with (2 ^ 4). rewrite <- Z.land_ones by lia.
    by rewrite <- Z.land_assoc. }
  rewrite Hrw.
  assert (Hy : 0 ≤ b0 mod 16 < 16) by (apply Z.mod_pos_bound; lia).
  clear Hrw. generalize dependent (b0 mod 16). intros y Hy.
  assert (Hin : y ∈ seqZ 0 16) by (apply elem_of_seqZ; lia).
  vm_compute in Hin.
  repeat (apply elem_of_cons in Hin as [->|Hin];
          [vm_compute; repeat constructor|]).
  by apply elem_of_nil in Hin.
Qed.

Lemma Get_Ok (rnd rnd' : list rand_Read) (m m' : macGenerator) (key : string) :
  Get rnd m = Some (Ok key, m', rnd') →
  unicast_local_mac key
  ∧ (key ∉ addresses m)
  ∧ addresses m' = {[key]} ∪ addresses m.
Proof.
  induction rnd as [|[err|b0 b1 b2 b3 b4 b5] rnd IH]; simpl; [done..|].
  case_bool_decide as Hfresh; [exact IH|].
  intros [= <- <- <-]. split; [|done].
  exists (unicast_local b0), b1, b2, b3, b4, b5.
  split; [done|]. split; [apply unicast_local_range|].
  destruct (unicast_local_bits b0) as [H0 H1]. do 2 (split; [done|]).
  eexists. split; [reflexivity|]. apply unicast_local_low_digit.
Qed.

Lemma Get_Err (rnd rnd' : list rand_Read) (m m' : macGenerator) (e : error) :
  Get rnd m = Some (Err e, m', rnd') → m' = m.
Proof.
  induction rnd as [|[err|b0 b1 b2 b3 b4 b5] rnd IH]; simpl; [done| |].
  - by intros [= _ <- _].
  - case_bool_decide; [exact IH | done].
Qed.

Lemma Get_grows (rnd rnd' : list rand_Read) (m m' : macGenerator)
    (r : result string) :
  Get rnd m = Some (r, m', rnd') → addresses m ⊆ addresses m'.
Proof.
  destruct r as [key|e]; intros Hget.
  - apply Get_Ok in Hget as (_ & _ & ->). set_solver.
  - by apply Get_Err in Hget as ->.
Qed.

Lemma Get_times_grows (n : nat) (rnd rnd' : list rand_Read)
    (m m' : macGenerator) (rs : list (result string)) :
  Get_times n rnd m = Some (rs, m', rnd') → addresses m ⊆ addresses m'.
Proof.
  revert rnd rnd' m m' rs.
  induction n as [|n IH]; intros rnd rnd' m m' rs; simpl.
  - by intros [= _ <- _].
  - destruct (Get rnd m) as [[[r m1] rnd1]|] eqn:Hget; [|done].
    destruct (Get_times n rnd1 m1) as [[[rs1 m2] rnd2]|] eqn:Htimes; [|done].
    intros [= _ <- _]. apply Get_grows in Hget. apply IH in Htimes.
    set_solver.
Qed.

(** [Get] returns as soon as a read fails or draws an address that was
    not handed out: on such outcomes the loop ends. *)
Lemma Get_returns (rnd : list rand_Read) (m : macGenerator) :
  Exists (λ r, match r with
               | ReadFails _ => True
               | ReadFills b0 b1 b2 b3 b4 b5 =>
                   HardwareAddr_String [unicast_local b0; b1; b2; b3; b4; b5]
                   ∉ addresses m
               end) rnd →
  is_Some (Get rnd m).
Proof.
  induction 1 as [[err|b0 b1 b2 b3 b4 b5] rnd Hhere
                 |[err|b0 b1 b2 b3 b4 b5] rnd Hlater IH]; simpl; [done| |done|].
  - by rewrite bool_decide_eq_false_2.
  - by case_bool_decide.
Qed.

(** C10. Over any number of calls of [Get] on one generator, every
    address returned is the text of six octets whose first has the
    multicast bit clear and the locally administered bit set, was not
    among the addresses of the generator at the start, and the addresses
    returned are pairwise distinct: none equals one returned before. *)
Theorem Get_unicast_local_and_distinct (n : nat) (rnd rnd' : list rand_Read)
    (m m' : macGenerator) (rs : list (result string)) :
  Get_times n rnd m = Some (rs, m', rnd') →
  NoDup (returned rs)
  ∧ Forall (λ key, unicast_local_mac key
                   ∧ (key ∉ addresses m) ∧ key ∈ addresses m')
      (returned rs).
Proof.
  revert rnd rnd' m m' rs.
  induction n as [|n IH]; intros rnd rnd' m m' rs; simpl.
  - intros [= <- _ _]. split; constructor.
  - destruct (Get rnd m) as [[[r m1] rnd1]|] eqn:Hget; [|done].
    destruct (Get_times n rnd1 m1) as [[[rs1 m2] rnd2]|] eqn:Htimes; [|done].
    intros [= <- <- <-].
    pose proof (Get_grows _ _ _ _ _ Hget) as Hgrow1.
    pose proof (Get_times_grows _ _ _ _ _ _ Htimes) as Hgrow2.
    destruct (IH _ _ _ _ _ Htimes) as [Hnodup Hall].
    assert (Hall' : Forall (λ key, unicast_local_mac key
                                   ∧ (key ∉ addresses m) ∧ key ∈ addresses m2)
                      (returned rs1)).
    { eapply Forall_impl; [exact Hall|]. simpl. intros key (? & ? & ?).
      set_solver. }
    destruct r as [key|e]; [|done].
    apply Get_Ok in Hget as (Hmac & Hfresh & Hm1).
    change (returned (Ok key :: rs1)) with (key :: returned rs1).
    split.
    + constructor; [|done]. intros Hin.
      rewrite Forall_forall in Hall. destruct (Hall _ Hin) as (_ & Hnot & _).
      apply Hnot. rewrite Hm1. set_solver.
    + constructor; [|done]. split; [done|]. split; [done|].
      apply Hgrow2. rewrite Hm1. set_solver.
Qed.

(** C10 at three calls on the package's generator, where the second read
    draws the address of the first again. *)
Lemma Get_unicast_local_and_distinct_witness :
  let keys := ["fe:00:01:02:03:ab"; "02:00:01:02:03:ab"; "12:10:01:02:03:ab"] in
  NoDup (returned (Ok <$> keys))
  ∧ Forall (λ key, unicast_local_mac key
                   ∧ (key ∉ addresses MACGenerator)
                   ∧ key ∈ addresses {| addresses := list_to_set keys |})
      (returned (Ok <$> keys)).
Proof.
  apply (Get_unicast_local_and_distinct 3
           [ReadFills 255 0 1 2 3 171; ReadFills 254 0 1 2 3 171;
            ReadFills 1 0 1 2 3 171; ReadFills 17 16 1 2 3 171;
            ReadFails ErrNotFound]
           [ReadFails ErrNotFound] MACGenerator).
  vm_compute; reflexivity.
Defined.

End GeneratorProperties.

(** * Properties of a whole pass *)

Section PassShapes.
Context {W : Type} `{!Client W} `{!workflowClient W}.

Lemma reconcileStatus_shape (w : Workflow) (tw : pbWorkflow) (world : W) :
  status_shape w tw (trace (reconcileStatus w tw world))
    (outcome (reconcileStatus w tw world)).
Proof.
  rewrite reconcileStatus_deferred.
  pose proof (reconcileStatus_body_sync w tw world) as Hsync.
  cbv zeta in *. unfold outcome at 1, trace at 1. simpl.
  by constructor.
Qed.

Lemma createWorkflow_shape (w : Workflow) (world : W) :
  create_shape w (trace (createWorkflow w world))
    (outcome (createWorkflow w world)).
Proof.
  unfold createWorkflow. unfold_run. repeat next_call; simpl; constructor.
Qed.

Lemma reconcileNormal_with_shape (w : Workflow) (id : string) (world : W) :
  normal_with_shape w id (trace (reconcileNormal_with w id world))
    (outcome (reconcileNormal_with w id world)).
Proof.
  unfold reconcileNormal_with. unfold_run.
  destruct (WorkflowClient_Get id world) as [[tw|e] world1]; simpl;
    [|constructor].
  destruct (Client_Patch (SetTinkID id w) w world1) as [[e|] world2]; simpl;
    [constructor|].
  pose proof (reconcileStatus_shape (SetTinkID id w) tw world2) as Hsub.
  destruct (reconcileStatus (SetTinkID id w) tw world2) as [[out w3] t].
  by constructor.
Qed.

Lemma reconcileNormal_shape (w : Workflow) (world : W) :
  normal_shape w (trace (reconcileNormal w world))
    (outcome (reconcileNormal w world)).
Proof.
  unfold reconcileNormal. case_bool_decide as Hid.
  - unfold mbind, M_bind.
    pose proof (createWorkflow_shape w world) as Hcreate.
    destruct (createWorkflow w world) as [[[id|e] world1] t1];
      unfold outcome, trace in Hcreate; simpl in Hcreate.
    + pose proof (reconcileNormal_with_shape w id world1) as Hsub.
      destruct (reconcileNormal_with w id world1) as [[out w2] t2].
      by apply (normal_created w t1 id t2 out).
    + simpl. rewrite (right_id_L [] (++)). by constructor.
  - constructor; [done|]. apply reconcileNormal_with_shape.
Qed.

Lemma reconcileDelete_shape (w : Workflow) (world : W) :
  delete_shape w (trace (reconcileDelete w world))
    (outcome (reconcileDelete w world)).
Proof.
  destruct (decide (TinkID w = "")) as [Hid|Hid].
  - destruct (Client_Patch (RemoveFinalizer w WorkflowFinalizer) w world)
      as [perr world2] eqn:Hpatch.
    rewrite (reconcileDelete_no_id w world world2 perr Hid Hpatch).
    by constructor.
  - destruct (WorkflowClient_Delete (TinkID w) world)
      as [derr world1] eqn:Hdel.
    destruct (delete_tolerated derr) eqn:Htol.
    + destruct (Client_Patch (RemoveFinalizer w WorkflowFinalizer) w world1)
        as [perr world2] eqn:Hpatch.
      rewrite (reconcileDelete_tolerated w world world1 world2 derr perr
                 Hid Hdel Htol Hpatch).
      by constructor.
    + destruct derr as [e|]; [|discriminate]. simpl in Htol.
      rewrite (reconcileDelete_aborted w world world1 e Hid Hdel Htol).
      by constructor.
Qed.

(** Every pass of [Reconcile] has one of the shapes. *)
Lemma Reconcile_shape (req : Request) (world : W) :
  reconcile_shape (req_NamespacedName req) (trace (Reconcile req world))
    (outcome (Reconcile req world)).
Proof.
  destruct (Client_GetWorkflow (req_NamespacedName req) world)
    as [[wf|err] world1] eqn:Hget.
  - assert (Hbranch : ∀ world' pre,
      ensured wf pre →
      let branch :=
        (if negb (DeletionTimestamp_IsZero wf)
         then reconcileDelete (AddFinalizer wf WorkflowFinalizer)
         else reconcileNormal (AddFinalizer wf WorkflowFinalizer)) world' in
      reconcile_shape (req_NamespacedName req)
        (CallGetWorkflow (req_NamespacedName req) (Ok wf)
           :: pre ++ trace branch)%list (outcome branch)).
    { intros world' pre Hpre.
      destruct (DeletionTimestamp_IsZero wf) eqn:Hzero; simpl.
      - apply pass_normal; [done..|]. apply reconcileNormal_shape.
      - apply pass_delete; [done..|]. apply reconcileDelete_shape. }
    destruct (Reconcile_loaded req world world1 wf Hget)
      as [[Hfin ->]|[(world2 & Hfin & _ & ->)|(e & world2 & Hfin & _ & ->)]].
    + apply (Hbranch world1 []). by constructor.
    + apply (Hbranch world2 [_]). by constructor.
    + by constructor.
  - rewrite (Reconcile_load_failed req world world1 err Hget).
    destruct (apierrors_IsNotFound err) eqn:Hnf; by constructor.
Qed.

End PassShapes.

(** Case analysis of a pass into its shapes, down to explicit traces. *)
Ltac invert_pass :=
  repeat match goal with
         | H : reconcile_shape _ _ _ |- _ => inversion H; clear H; subst
         | H : ensured _ _ |- _ => inversion H; clear H; subst
         | H : normal_shape _ _ _ |- _ => inversion H; clear H; subst
         | H : normal_with_shape _ _ _ _ |- _ => inversion H; clear H; subst
         | H : create_shape _ _ _ |- _ => inversion H; clear H; subst
         | H : delete_shape _ _ _ |- _ => inversion H; clear H; subst
         | H : status_shape _ _ _ _ |- _ => inversion H; clear H; subst
         | H : status_sync _ _ _ _ _ |- _ => inversion H; clear H; subst
         end;
  repeat match goal with
         | perr : option error |- _ => destruct perr
         end;
  simpl in *.

Ltac pass_cases req world :=
  let Hshape := fresh "Hshape" in
  pose proof (Reconcile_shape req world) as Hshape;
  destruct (Reconcile req world) as [[? ?] ?];
  unfold outcome, trace in *; simpl in *;
  invert_pass.

(** Case analysis of a membership in an explicit trace. *)
Ltac elem_inv H :=
  lazymatch type of H with
  | _ ∈ [] => apply elem_of_nil in H; destruct H
  | _ ∈ _ :: _ =>
      apply elem_of_cons in H as [H|H];
      [try discriminate H; simplify_eq | elem_inv H]
  | _ => idtac
  end.

(** Search for the two calls of a [precedes] in an explicit trace. *)
Ltac elem_here :=
  solve [repeat first [apply list_elem_of_here | apply list_elem_of_further]].

Ltac precedes_here :=
  first [ apply precedes_here; elem_here
        | apply precedes_later; precedes_here ].

(** Splits an explicit trace before its last [n] calls. *)
Ltac split_before_last n :=
  lazymatch goal with
  | |- ∃ pre, ?t = (pre ++ _)%list ∧ _ =>
      exists (take (length t - n) t); simpl; split; [reflexivity|]
  end.

(** Splits an explicit trace around a failed patch, which is its last call
    or the last but one. *)
Ltac split_at_patch :=
  lazymatch goal with
  | |- ∃ pre post, ?t = _ ∧ _ =>
      first [ exists (take (length t - 1) t), []; simpl;
              split; [reflexivity|by left]
            | exists (take (length t - 2) t), (drop (length t - 1) t);
              simpl; split; [reflexivity|by right] ]
  end.

Section PassProperties.
Context {W : Type} `{!Client W} `{!workflowClient W}.

(** X1. Whatever the collaborators answer, the result of [Reconcile] never
    has [Requeue] set, its [RequeueAfter] is zero or one minute, and it is
    the zero result whenever an error is returned. *)
Theorem Reconcile_result_invariant (req : Request) (world : W) :
  let res := (outcome (Reconcile req world)).1 in
  Requeue res = false
  ∧ (RequeueAfter res = 0 ∨ RequeueAfter res = 60000000000)
  ∧ ((outcome (Reconcile req world)).2 ≠ None → res = Result_zero).
Proof.
  pass_cases req world.
  all: try (split; [done|]; split; [by left|done]).
  all: unfold requeue_until_success; case_bool_decide; simpl.
  all: split; [done|]; split; [by (left + right)|done].
Qed.

Lemma AddFinalizer_fields (w : Workflow) (finalizer : string) :
  Name (AddFinalizer w finalizer) = Name w
  ∧ DeletionTimestamp (AddFinalizer w finalizer) = DeletionTimestamp w
  ∧ remoteID (AddFinalizer w finalizer) = remoteID w
  ∧ Spec_HardwareRef (AddFinalizer w finalizer) = Spec_HardwareRef w
  ∧ Spec_TemplateRef (AddFinalizer w finalizer) = Spec_TemplateRef w
  ∧ Status (AddFinalizer w finalizer) = Status w.
Proof. unfold AddFinalizer. by destruct (ContainsFinalizer w finalizer). Qed.

(** X2. A [Create] call of a pass comes after the load of a resource without
    remote id and after the successful lookups of the hardware and of the
    template that the resource names; its arguments are the id of that
    template, then the id of that hardware. *)
Theorem Reconcile_create_after_lookups (req : Request) (world : W)
    (templateID hardwareID : string) (r : result string) :
  CallTinkCreate templateID hardwareID r ∈ trace (Reconcile req world) →
  ∃ wf hw tpl,
    precedes (CallGetWorkflow (req_NamespacedName req) (Ok wf))
      (CallTinkCreate templateID hardwareID r) (trace (Reconcile req world))
    ∧ TinkID wf = ""
    ∧ precedes
        (CallGetHardware (ObjectKey_of_name (Spec_HardwareRef wf)) (Ok hw))
        (CallTinkCreate templateID hardwareID r) (trace (Reconcile req world))
    ∧ precedes
        (CallGetTemplate (ObjectKey_of_name (Spec_TemplateRef wf)) (Ok tpl))
        (CallTinkCreate templateID hardwareID r) (trace (Reconcile req world))
    ∧ templateID = Template_TinkID tpl
    ∧ hardwareID = Hardware_Spec_ID hw.
Proof.
  intros Hin. pass_cases req world; elem_inv Hin.
  all: match goal with
       | Hid : TinkID (AddFinalizer ?wf _) = "" |- _ =>
           rewrite AddFinalizer_TinkID in Hid;
           destruct (AddFinalizer_fields wf WorkflowFinalizer)
             as (_ & _ & _ & -> & -> & _);
           eexists wf, _, _
       end.
  all: split; [precedes_here|]; split; [done|].
  all: split; [precedes_here|]; split; [precedes_here|done].
Qed.

(** X3. A pass makes at most one [Create] call; when that call fails the
    pass returns its error, wrapped, and the trace ends with that call and
    the log of it: no [Get], no patch and no status call follows, and no
    [Create] call came before. *)
Theorem Reconcile_create_single_attempt (req : Request) (world : W) :
  (create_count (trace (Reconcile req world)) ≤ 1)%nat
  ∧ ∀ templateID hardwareID e,
      CallTinkCreate templateID hardwareID (Err e)
        ∈ trace (Reconcile req world) →
      outcome (Reconcile req world)
        = (Result_zero, Some (Errorf "failed to create workflow" e))
      ∧ last (trace (Reconcile req world))
        = Some (CallLogError e "Failed to create workflow")
      ∧ ∃ pre,
          trace (Reconcile req world)
          = (pre ++ [CallTinkCreate templateID hardwareID (Err e);
                     CallLogError e "Failed to create workflow"])%list
          ∧ create_count pre = 0%nat.
Proof.
  pass_cases req world.
  all: split; [unfold create_count; simpl; lia|].
  all: intros templateID hardwareID e' Hin; elem_inv Hin.
  all: split; [done|]; split; [done|].
  all: split_before_last 2%nat; reflexivity.
Qed.

(** X4. A lookup of the hardware or of the template that fails, with
    Not-Found or any other error, ends the pass with that error, wrapped,
    before any [Create] call. *)
Theorem Reconcile_lookup_failure (req : Request) (world : W)
    (key : NamespacedName) (e : error) :
  (CallGetHardware key (Err e) ∈ trace (Reconcile req world) →
   outcome (Reconcile req world)
     = (Result_zero, Some (Errorf "failed to get hardware" e))
   ∧ create_count (trace (Reconcile req world)) = 0%nat)
  ∧ (CallGetTemplate key (Err e) ∈ trace (Reconcile req world) →
     outcome (Reconcile req world)
       = (Result_zero, Some (Errorf "failed to get template" e))
     ∧ create_count (trace (Reconcile req world)) = 0%nat).
Proof.
  pass_cases req world.
  all: split; intros Hin; elem_inv Hin; done.
Qed.

(** X5. The two paths exclude each other.  A pass over a resource that is
    being deleted makes no remote call but the [Delete] of its remote id,
    and none at all when it has no remote id; a pass over a resource that
    is not being deleted makes no [Delete] call. *)
Theorem Reconcile_paths_exclusive (req : Request) (world : W) (wf : Workflow) :
  CallGetWorkflow (req_NamespacedName req) (Ok wf)
    ∈ trace (Reconcile req world) →
  (DeletionTimestamp_IsZero wf = false →
   ∀ c, c ∈ trace (Reconcile req world) → remote_call c = true →
        TinkID wf ≠ "" ∧ ∃ derr, c = CallTinkDelete (TinkID wf) derr)
  ∧ (DeletionTimestamp_IsZero wf = true →
     ∀ c, c ∈ trace (Reconcile req world) → delete_call c = false).
Proof.
  intros Hload. pass_cases req world; elem_inv Hload.
  all: split; intros Hzero c Hc; try congruence.
  all: elem_inv Hc; simpl in *; try done.
  all: rewrite AddFinalizer_TinkID in *; eauto.
Qed.

(** X6. The status sync starts only once the remote id is recorded: every
    call of the status sync comes after a successful [Get] of an
    execution and after the successful patch that sets its id on the
    resource.  A failed [Get] ends the pass there, with its error wrapped,
    and a failed patch ends it with at most the log of the failure after
    it; the trace of either pass has no call of the status sync. *)
Theorem Reconcile_id_recorded_before_sync (req : Request) (world : W) :
  (∀ c, c ∈ trace (Reconcile req world) → status_call c = true →
     ∃ id tw w,
       precedes (CallTinkGet id (Ok tw)) c (trace (Reconcile req world))
       ∧ precedes (CallPatch (SetTinkID id w) w None) c
           (trace (Reconcile req world)))
  ∧ (∀ id e,
       CallTinkGet id (Err e) ∈ trace (Reconcile req world) →
       outcome (Reconcile req world)
         = (Result_zero, Some (Errorf "failed to get workflow" e))
       ∧ last (trace (Reconcile req world)) = Some (CallTinkGet id (Err e))
       ∧ no_status_call (trace (Reconcile req world)))
  ∧ (∀ obj base e,
       CallPatch obj base (Some e) ∈ trace (Reconcile req world) →
       (∃ msg, outcome (Reconcile req world)
               = (Result_zero, Some (Errorf msg e)))
       ∧ no_status_call (trace (Reconcile req world))
       ∧ ∃ pre post,
           trace (Reconcile req world)
           = (pre ++ CallPatch obj base (Some e) :: post)%list
           ∧ (post = []
              ∨ post = [CallLogError e "Failed to patch workflow"])).
Proof.
  split; [|split].
  - intros c Hc Hstatus. pass_cases req world; elem_inv Hc; try done.
    all: eexists _, _, _; split; precedes_here.
  - intros id e Hin. pass_cases req world; elem_inv Hin.
    all: split; [done|]; split; [done|].
    all: unfold no_status_call; repeat constructor.
  - intros obj base e Hin. pass_cases req world; elem_inv Hin.
    all: split; [by eexists|].
    all: split; [unfold no_status_call; by repeat constructor|].
    all: split_at_patch.
Qed.

(** X7. The fetches of the status sync ask for the id that the fetched
    execution reports ([tinkWorkflow.GetId()]), and the status that is
    patched carries the data of that execution. *)
Theorem Reconcile_status_of_fetched_execution (req : Request) (world : W)
    (id : string) (tw : pbWorkflow) :
  CallTinkGet id (Ok tw) ∈ trace (Reconcile req world) →
  (∀ c id', c ∈ trace (Reconcile req world) → fetch_id c = Some id' →
            id' = GetId tw)
  ∧ (∀ obj base perr,
       CallStatusPatch obj base perr ∈ trace (Reconcile req world) →
       Status_Data (Status obj) = GetData tw).
Proof.
  intros Hget. pass_cases req world; elem_inv Hget.
  all: split;
    [intros c id' Hc Hid; elem_inv Hc; simpl in *; by simplify_eq
    |intros obj base perr Hc; elem_inv Hc; done].
Qed.

(** X8. A pass patches the status at most once, and the object of that patch
    differs from its base in the status only. *)
Theorem Reconcile_status_patch_once (req : Request) (world : W) :
  (status_patch_count (trace (Reconcile req world)) ≤ 1)%nat
  ∧ ∀ obj base perr,
      CallStatusPatch obj base perr ∈ trace (Reconcile req world) →
      SetStatus (Status base) obj = base.
Proof.
  pass_cases req world.
  all: split; [unfold status_patch_count; simpl; lia|].
  all: intros obj base perr Hc; elem_inv Hc; done.
Qed.

(** X9. Outside the delete path the finalizer stays: every object that a pass
    over a resource that is not being deleted patches, the status patch
    included, carries the finalizer. *)
Theorem Reconcile_normal_keeps_finalizer (req : Request) (world : W)
    (wf : Workflow) :
  CallGetWorkflow (req_NamespacedName req) (Ok wf)
    ∈ trace (Reconcile req world) →
  DeletionTimestamp_IsZero wf = true →
  ∀ c obj, c ∈ trace (Reconcile req world) → patched_object c = Some obj →
           WorkflowFinalizer ∈ Finalizers obj.
Proof.
  intros Hload Hzero. pass_cases req world; elem_inv Hload; try congruence.
  all: intros c obj Hc Hobj; elem_inv Hc; simpl in *; simplify_eq.
  all: simpl; apply AddFinalizer_elem.
Qed.

(** X10. A pass changes neither the name, the deletion timestamp nor the
    references of the resource, and never a recorded remote id: every
    object it patches agrees with the loaded resource on them. *)
Theorem Reconcile_keeps_identity (req : Request) (world : W) (wf : Workflow) :
  CallGetWorkflow (req_NamespacedName req) (Ok wf)
    ∈ trace (Reconcile req world) →
  ∀ c obj, c ∈ trace (Reconcile req world) → patched_object c = Some obj →
    Name obj = Name wf
    ∧ DeletionTimestamp obj = DeletionTimestamp wf
    ∧ Spec_HardwareRef obj = Spec_HardwareRef wf
    ∧ Spec_TemplateRef obj = Spec_TemplateRef wf
    ∧ (TinkID wf ≠ "" → TinkID obj = TinkID wf).
Proof.
  intros Hload. pass_cases req world; elem_inv Hload.
  all: intros c obj Hc Hobj; elem_inv Hc; simpl in *; simplify_eq.
  all: simpl;
    match goal with
    | |- context [AddFinalizer ?w ?f] =>
        destruct (AddFinalizer_fields w f) as (? & ? & Hid & ? & ? & ?)
    end;
    unfold TinkID in *; rewrite ?Hid in *; repeat split; congruence.
Qed.

End PassProperties.

(** * Properties of the generators of addresses and hardware *)

Section HardwareProperties.
Import Generators.

(** X11. [Get] returns what the first read that fails or draws a fresh address
    gives, having used the reads up to it and no other; the reads before
    it all drew addresses handed out already. *)
Theorem Get_first_settling_read (rnd rnd' : list rand_Read)
    (m m' : macGenerator) (r : result string) :
  Get rnd m = Some (r, m', rnd') ↔
  ∃ skipped d,
    rnd = (skipped ++ d :: rnd')%list
    ∧ Forall (collides m) skipped
    ∧ ¬ collides m d
    ∧ (r, m') = settles m d.
Proof.
  split.
  - revert r m' rnd'.
    induction rnd as [|[err|b0 b1 b2 b3 b4 b5] rnd IH]; intros r m' rnd';
      simpl; [done| |].
    + intros [= <- <- <-]. exists [], (ReadFails err).
      split; [done|]. split; [constructor|]. split; [by intros []|done].
    + case_bool_decide as Hin.
      * intros (skipped & d & -> & Hall & Hd & Hset)%IH.
        exists (ReadFills b0 b1 b2 b3 b4 b5 :: skipped), d.
        split; [done|]. split; [by constructor|]. split; done.
      * intros [= <- <- <-]. exists [], (ReadFills b0 b1 b2 b3 b4 b5).
        split; [done|]. split; [constructor|]. split; done.
  - intros (skipped & d & -> & Hall & Hd & Hset).
    induction Hall as [|[err|b0 b1 b2 b3 b4 b5] skipped Hx Hall IH]; simpl.
    + destruct d as [err|b0 b1 b2 b3 b4 b5]; simpl in *.
      * by injection Hset as -> ->.
      * rewrite bool_decide_eq_false_2 by done. by injection Hset as -> ->.
    + done.
    + by rewrite bool_decide_eq_true_2.
Qed.

Lemma hexDigit_at_hex (i : Z) :
  hexDigit_at i ∈ list_ascii_of_string hexDigit.
Proof.
  unfold hexDigit_at. generalize (Z.to_nat i). clear i. intros n.
  do 16 (destruct n as [|n]; [vm_compute; elem_here|]).
  vm_compute. elem_here.
Qed.

(** X12. The text of an address that [Get] returns is seventeen characters
    long: six pairs of lower-case hexadecimal digits with a colon between
    them. *)
Theorem Get_address_text (rnd rnd' : list rand_Read) (m m' : macGenerator)
    (key : string) :
  Get rnd m = Some (Ok key, m', rnd') →
  String.length key = 17%nat
  ∧ (∀ i, i ∈ colon_places → String.get i key = Some ":"%char)
  ∧ (∀ i c, String.get i key = Some c → i ∉ colon_places →
            c ∈ list_ascii_of_string hexDigit).
Proof.
  intros ((b0 & b1 & b2 & b3 & b4 & b5 & -> & _) & _)%Get_Ok.
  split; [done|]. split.
  - intros i Hi. unfold colon_places in Hi. elem_inv Hi; reflexivity.
  - intros i c Hget Hi. simpl in Hget.
    unfold hex_octet in Hget.
    do 17 (destruct i as [|i];
           [first [ by (exfalso; apply Hi; unfold colon_places; elem_here)
                  | injection Hget as <-; apply hexDigit_at_hex ]|]).
    done.
Qed.

(** *** The address allocator *)

(** X13. What [nextAddressFromCIDR] records: on success the address returned
    is the last address of its CIDR, on a failure the allocator is as it
    was, and in both cases the other CIDRs keep their last address.  The
    netmask and the gateway returned for a CIDR are the same at every
    call, whatever was handed out before. *)
Theorem nextAddressFromCIDR_records `{NetLib} (cidr : string) (i i' : ipGetter)
    (r : result (string * string * string)) :
  nextAddressFromCIDR cidr i = Returns (r, i') →
  (∀ other, other ≠ cidr →
            ip_addresses i' !! other = ip_addresses i !! other)
  ∧ match r with
    | Ok (ip, netmask, gateway) =>
        ip_addresses i' !! cidr = Some ip
        ∧ ∀ j j' ip2 netmask2 gateway2,
            nextAddressFromCIDR cidr j
              = Returns (Ok (ip2, netmask2, gateway2), j') →
            netmask2 = netmask ∧ gateway2 = gateway
    | Err _ => i' = i
    end.
Proof.
  unfold nextAddressFromCIDR.
  destruct (ParseCIDR cidr) as [network|err]; [|by intros [= <- <-]].
  destruct (incr_last (IPNet_IP network)) as [gw| |]; simpl; [|done..].
  destruct (incr_last (ParseIP _)) as [nextIP| |]; simpl; [|done..].
  intros [= <- <-]. simpl. split.
  - intros other Hother. by rewrite lookup_insert_ne.
  - split; [by rewrite lookup_insert_eq|].
    intros j j' ip2 netmask2 gateway2.
    destruct (incr_last (ParseIP _)) as [nextIP2| |]; simpl; [|done..].
    by intros [= _ <- <- _].
Qed.

Lemma octet_succ_add (x k : Z) :
  (x mod 256 + 1 + k) mod 256 = (x + 1 + k) mod 256.
Proof. rewrite <- !Z.add_assoc, Z.add_mod_idemp_l by lia. done. Qed.

(** One call for an IPv4 network whose last address, or the gateway when
    there is none yet, ends in the octet [x]. *)
Lemma nextAddressFromCIDR_v4 `{NetLibIPv4} (cidr : string) (network : IPNet)
    (a b c d x : Z) (i : ipGetter) :
  ParseCIDR cidr = Ok network →
  IPNet_IP network = [a; b; c; d] →
  Forall (λ o, 0 ≤ o < 256) [a; b; c; x] →
  default (IP_String [a; b; c; (d + 1) mod 256]) (ip_addresses i !! cidr)
    = IP_String [a; b; c; x] →
  nextAddressFromCIDR cidr i
  = Returns (Ok (IP_String [a; b; c; (x + 1) mod 256],
                 IP_String (IPNet_Mask network),
                 IP_String [a; b; c; (d + 1) mod 256]),
             {| ip_addresses :=
                  <[cidr := IP_String [a; b; c; (x + 1) mod 256]]>
                    (ip_addresses i) |}).
Proof.
  intros Hparse Hip Hvalid Hlast. unfold nextAddressFromCIDR.
  rewrite Hparse, Hip. simpl. rewrite Hlast.
  rewrite ParseIP_String by done. simpl.
  rewrite (String_To16 [a; b; c; (x + 1) mod 256]); [done|].
  split; [done|].
  apply Forall_cons in Hvalid as [Ha Hvalid].
  apply Forall_cons in Hvalid as [Hb Hvalid].
  apply Forall_cons in Hvalid as [Hc _].
  repeat constructor; try lia; apply Z.mod_pos_bound; lia.
Qed.

(** [n] calls in a row, from a last address that ends in [x]. *)
Lemma nextAddressFromCIDR_times_v4 `{NetLibIPv4} (cidr : string)
    (network : IPNet) (a b c d : Z) (n : nat) :
  ParseCIDR cidr = Ok network →
  IPNet_IP network = [a; b; c; d] →
  Forall (λ o, 0 ≤ o < 256) [a; b; c] →
  ∀ (x : Z) (i : ipGetter),
    0 ≤ x < 256 →
    default (IP_String [a; b; c; (d + 1) mod 256]) (ip_addresses i !! cidr)
      = IP_String [a; b; c; x] →
    ∃ i',
      nextAddressFromCIDR_times n cidr i
      = Returns ((λ k : nat,
                    Ok (IP_String [a; b; c; (x + 1 + Z.of_nat k) mod 256],
                        IP_String (IPNet_Mask network),
                        IP_String [a; b; c; (d + 1) mod 256]))
                   <$> seq 0 n, i').
Proof.
  intros Hparse Hip Habc. induction n as [|n IH]; intros x i Hx Hlast.
  - by exists i.
  - simpl. unfold mbind at 1, exec_bind.
    assert (Hvalid : Forall (λ o, 0 ≤ o < 256) [a; b; c; x]).
    { apply (Forall_app _ [a; b; c] [x]). split; [done|].
      by apply Forall_singleton. }
    rewrite (nextAddressFromCIDR_v4 cidr network a b c d x i Hparse Hip
               Hvalid Hlast).
    cbn beta iota.
    edestruct (IH ((x + 1) mod 256)) as [i' ->].
    { apply Z.mod_pos_bound; lia. }
    { simpl. by rewrite lookup_insert_eq. }
    exists i'. simpl. f_equal. f_equal.
    rewrite Z.add_0_r. f_equal.
    rewrite <- fmap_S_seq, <- list_fmap_compose.
    apply list_fmap_ext. intros _ k _. simpl. rewrite octet_succ_add.
    by replace (x + 1 + Z.of_nat (S k)) with (x + 1 + 1 + Z.of_nat k) by lia.
Qed.

(** X14. For an IPv4 network [a.b.c.d] without an address handed out yet, [n]
    calls in a row all return: the gateway is the network address with
    its last octet one up, the first address handed out is the one after
    the gateway, and each call goes one up in the last octet, wrapping at
    256 without a carry into the third octet. *)
Theorem nextAddressFromCIDR_sequence `{NetLibIPv4} (cidr : string)
    (network : IPNet) (a b c d : Z) (n : nat) (i : ipGetter) :
  ParseCIDR cidr = Ok network →
  IPNet_IP network = [a; b; c; d] →
  Forall (λ o, 0 ≤ o < 256) [a; b; c; d] →
  ip_addresses i !! cidr = None →
  ∃ i',
    nextAddressFromCIDR_times n cidr i
    = Returns ((λ k : nat,
                  Ok (IP_String [a; b; c; (d + 2 + Z.of_nat k) mod 256],
                      IP_String (IPNet_Mask network),
                      IP_String [a; b; c; (d + 1) mod 256]))
                 <$> seq 0 n, i').
Proof.
  intros Hparse Hip Hvalid Hnone.
  assert (Habc : Forall (λ o, 0 ≤ o < 256) [a; b; c]).
  { apply (Forall_app _ [a; b; c] [d]) in Hvalid. tauto. }
  destruct (nextAddressFromCIDR_times_v4 cidr network a b c d n Hparse Hip
              Habc ((d + 1) mod 256) i) as [i' Hrun].
  { apply Z.mod_pos_bound; lia. }
  { by rewrite Hnone. }
  exists i'. rewrite Hrun. f_equal. f_equal.
  apply list_fmap_ext. intros _ k _. simpl. rewrite octet_succ_add.
  by replace (d + 2 + Z.of_nat k) with (d + 1 + 1 + Z.of_nat k) by lia.
Qed.

(** X15. The allocator does not stop at the end of the network: for an IPv4
    network without an address handed out yet, the 256th call hands out
    the address of the gateway itself, and the 257th the address that the
    first call handed out. *)
Theorem nextAddressFromCIDR_wraps `{NetLibIPv4} (cidr : string)
    (network : IPNet) (a b c d : Z) (i : ipGetter) :
  ParseCIDR cidr = Ok network →
  IPNet_IP network = [a; b; c; d] →
  Forall (λ o, 0 ≤ o < 256) [a; b; c; d] →
  ip_addresses i !! cidr = None →
  ∃ rs i' gateway netmask,
    nextAddressFromCIDR_times 257 cidr i = Returns (rs, i')
    ∧ rs !! 255%nat = Some (Ok (gateway, netmask, gateway))
    ∧ rs !! 256%nat = rs !! 0%nat.
Proof.
  intros Hparse Hip Hvalid Hnone.
  assert (Habc : Forall (λ o, 0 ≤ o < 256) [a; b; c]).
  { apply (Forall_app _ [a; b; c] [d]) in Hvalid. tauto. }
  destruct (nextAddressFromCIDR_times_v4 cidr network a b c d 257 Hparse Hip
              Habc ((d + 1) mod 256) i) as [i' Hrun].
  { apply Z.mod_pos_bound; lia. }
  { by rewrite Hnone. }
  eexists _, i', (IP_String [a; b; c; (d + 1) mod 256]), _.
  split; [exact Hrun|].
  rewrite !list_lookup_fmap, !lookup_seq_lt by lia. simpl.
  rewrite !octet_succ_add.
  replace (d + 1 + 1 + Z.of_nat 255) with (d + 1 + 1 * 256) by lia.
  replace (d + 1 + 1 + Z.of_nat 256) with (d + 1 + 1 + Z.of_nat 0 + 1 * 256)
    by lia.
  by rewrite !Z.mod_add by lia.
Qed.

(** The dotted-decimal instance has what the allocator relies on. *)
Lemma octets_octet (b : Z) (rest : string) (acc : list Z) :
  0 ≤ b < 256 →
  Dotted.octets (Dotted.octet b rest) None acc
  = Dotted.octets rest (Some b) acc.
Proof.
  intros Hb. assert (Hin : b ∈ seqZ 0 256) by (apply elem_of_seqZ; lia).
  clear Hb. vm_compute in Hin.
  repeat (apply elem_of_cons in Hin as [->|Hin]; [reflexivity|]).
  by apply elem_of_nil in Hin.
Qed.

#[global] Instance Dotted_IPv4 : @NetLibIPv4 Dotted.net.
Proof.
  split.
  - intros ip [Hlen Hvalid].
    destruct ip as [|a [|b [|c [|d [|? ?]]]]]; try done.
    apply Forall_cons in Hvalid as [Ha Hvalid].
    apply Forall_cons in Hvalid as [Hb Hvalid].
    apply Forall_cons in Hvalid as [Hc Hvalid].
    apply Forall_cons in Hvalid as [Hd _].
    assert (Hoctets : Dotted.octets (Dotted.dotted a b c d) None []
                      = [a; b; c; d]).
    { unfold Dotted.dotted.
      rewrite octets_octet by done. simpl.
      rewrite octets_octet by done. simpl.
      rewrite octets_octet by done. simpl.
      by rewrite octets_octet by done. }
    change (Dotted.parse (Dotted.dotted a b c d)
            = (v4InV6Prefix ++ [a; b; c; d])%list).
    unfold Dotted.parse. rewrite Hoctets.
    rewrite bool_decide_eq_true_2; [done|].
    split; [done|]. by repeat (apply Forall_cons; split; [done|]).
  - intros ip [Hlen _].
    by destruct ip as [|a [|b [|c [|d [|? ?]]]]].
Qed.

(** *** The generators of hardware *)

Lemma nextAddressFromCIDR_Ok `{NetLib} (cidr : string) (i i' : ipGetter)
    (ip netmask gateway : string) :
  nextAddressFromCIDR cidr i = Returns (Ok (ip, netmask, gateway), i') →
  ∃ network gw,
    ParseCIDR cidr = Ok network
    ∧ incr_last (IPNet_IP network) = Returns gw
    ∧ netmask = IP_String (IPNet_Mask network)
    ∧ gateway = IP_String gw
    ∧ ip_addresses i' !! cidr = Some ip.
Proof.
  unfold nextAddressFromCIDR.
  destruct (ParseCIDR cidr) as [network|err]; [|done].
  destruct (incr_last (IPNet_IP network)) as [gw| |] eqn:Hgw; simpl;
    [|done..].
  destruct (incr_last (ParseIP _)) as [nextIP| |]; simpl; [|done..].
  intros Heq. simplify_eq. exists network, gw. simpl.
  by rewrite lookup_insert_eq.
Qed.

Lemma GenerateHardwareInterface_with_Ok `{NetLib} (cidr : string)
    (g g' : generators) (ni : Interface) :
  GenerateHardwareInterface_with cidr g = Returns (Ok ni, g') →
  nextAddressFromCIDR cidr (gen_IPGetter g)
    = Returns (Ok (Dhcp_Ip_Address ni, Dhcp_Ip_Netmask ni, Dhcp_Ip_Gateway ni),
               gen_IPGetter g')
  ∧ Get (gen_reads g) (gen_MACGenerator g)
    = Some (Ok (Dhcp_Mac ni), gen_MACGenerator g', gen_reads g')
  ∧ gen_ints g' = gen_ints g.
Proof.
  unfold GenerateHardwareInterface_with.
  destruct (nextAddressFromCIDR cidr (gen_IPGetter g))
    as [[[[[ip netmask] gateway]|err] ipg]| |]; simpl; [|done..].
  destruct (Get (gen_reads g) (gen_MACGenerator g))
    as [[[[mac|err] m] reads]|]; [|done..].
  by intros [= <- <-].
Qed.

Lemma testCIDRs_at_mod (i : Z) :
  ∃ cidr,
    testCIDRs_at (i mod Z.of_nat (length testCIDRs)) = Returns cidr
    ∧ testCIDRs !! Z.to_nat (i mod 3) = Some cidr
    ∧ cidr ≠ "".
Proof.
  change (Z.of_nat (length testCIDRs)) with 3.
  assert (Hin : i mod 3 ∈ seqZ 0 3)
    by (apply elem_of_seqZ; pose proof (Z.mod_pos_bound i 3); lia).
  generalize dependent (i mod 3). intros k Hin. vm_compute in Hin.
  repeat (apply elem_of_cons in Hin as [->|Hin]; [by eexists|]).
  by apply elem_of_nil in Hin.
Qed.

(** X16. The ways [GenerateHardwareInterface] fails.  A CIDR that does not
    parse gives the error of the allocator and changes nothing.  For the
    empty CIDR a failure of [rand.Int] gives its error, wrapped, and uses
    up that one outcome only.  A failure of the MAC generator comes after
    the address was taken: the error is returned, the MAC generator is as
    it was, and the address stays recorded as the last one of its CIDR. *)
Theorem GenerateHardwareInterface_failures `{NetLib} (cidr : string)
    (g : generators) :
  (∀ err, cidr ≠ "" → ParseCIDR cidr = Err err →
     GenerateHardwareInterface cidr g
     = Returns (Err (Errorf "failed to parse cidr" err), g))
  ∧ (∀ err ints, cidr = "" → gen_ints g = IntFails err :: ints →
       GenerateHardwareInterface cidr g
       = Returns (Err (Errorf "failed to get random index for cidr" err),
                  mkGenerators (gen_IPGetter g) (gen_MACGenerator g) ints
                    (gen_reads g)))
  ∧ (∀ ip netmask gateway ipg e m reads,
       cidr ≠ "" →
       nextAddressFromCIDR cidr (gen_IPGetter g)
         = Returns (Ok (ip, netmask, gateway), ipg) →
       Get (gen_reads g) (gen_MACGenerator g) = Some (Err e, m, reads) →
       GenerateHardwareInterface cidr g
       = Returns (Err e,
                  mkGenerators ipg (gen_MACGenerator g) (gen_ints g) reads)
       ∧ ip_addresses ipg !! cidr = Some ip).
Proof.
  split; [|split].
  - intros err Hcidr Hparse. unfold GenerateHardwareInterface.
    rewrite bool_decide_eq_false_2 by done.
    unfold GenerateHardwareInterface_with, nextAddressFromCIDR.
    rewrite Hparse. simpl. by destruct g.
  - intros err ints -> Hints. unfold GenerateHardwareInterface.
    rewrite bool_decide_eq_true_2 by done. by rewrite Hints.
  - intros ip netmask gateway ipg e m reads Hcidr Hnext Hget.
    unfold GenerateHardwareInterface. rewrite bool_decide_eq_false_2 by done.
    unfold GenerateHardwareInterface_with. rewrite Hnext. simpl.
    rewrite Hget. apply Get_Err in Hget as ->.
    split; [done|].
    by apply nextAddressFromCIDR_Ok in Hnext as (_ & _ & _ & _ & _ & _ & ?).
Qed.

(** X17. With the empty CIDR, [GenerateHardwareInterface] goes on with the test
    CIDR that [rand.Int] picks: for an index below three it is the call
    for that test CIDR, with the outcome used up; an index out of range
    is a panic. *)
Theorem GenerateHardwareInterface_random_cidr `{NetLib} (g : generators)
    (i : Z) (ints : list rand_Int) :
  gen_ints g = IntReturns i :: ints →
  let g' := mkGenerators (gen_IPGetter g) (gen_MACGenerator g) ints
              (gen_reads g) in
  (0 ≤ i < 3 →
   ∃ cidr, testCIDRs !! Z.to_nat i = Some cidr
           ∧ GenerateHardwareInterface "" g
             = GenerateHardwareInterface cidr g')
  ∧ (¬ 0 ≤ i < 3 → GenerateHardwareInterface "" g = Panics).
Proof.
  intros Hints g'. unfold GenerateHardwareInterface at 1 3.
  rewrite bool_decide_eq_true_2 by done. rewrite Hints. fold g'.
  unfold testCIDRs_at. split.
  - intros Hi. rewrite bool_decide_eq_true_2 by lia.
    assert (Hin : i ∈ seqZ 0 3) by (apply elem_of_seqZ; lia).
    vm_compute in Hin.
    repeat (apply elem_of_cons in Hin as [->|Hin];
            [eexists; split; [reflexivity|]; simpl;
             unfold GenerateHardwareInterface;
             by rewrite bool_decide_eq_false_2|]).
    by apply elem_of_nil in Hin.
  - intros Hi. case_bool_decide as Hpos; [|done].
    rewrite (lookup_ge_None_2 testCIDRs (Z.to_nat i)); [done|]. simpl. lia.
Qed.

(** The loop of [GenerateHardware]: what it adds to the interfaces. *)
Lemma GenerateHardware_loop_Ok `{NetLib} (count : nat) :
  ∀ (i : Z) (acc hw : list Interface) (g g' : generators),
    GenerateHardware_loop count i acc g = Returns (Ok hw, g') →
    ∃ new,
      hw = (acc ++ new)%list
      ∧ length new = count
      ∧ NoDup (Dhcp_Mac <$> new)
      ∧ Forall (λ ni, unicast_local_mac (Dhcp_Mac ni)
                      ∧ (Dhcp_Mac ni ∉ addresses (gen_MACGenerator g))
                      ∧ Dhcp_Mac ni ∈ addresses (gen_MACGenerator g')) new
      ∧ addresses (gen_MACGenerator g) ⊆ addresses (gen_MACGenerator g')
      ∧ gen_ints g' = gen_ints g
      ∧ ∀ (k : nat) ni, new !! k = Some ni →
          ∃ cidr network gw,
            testCIDRs !! Z.to_nat ((i + Z.of_nat k) mod 3) = Some cidr
            ∧ ParseCIDR cidr = Ok network
            ∧ incr_last (IPNet_IP network) = Returns gw
            ∧ Dhcp_Ip_Netmask ni = IP_String (IPNet_Mask network)
            ∧ Dhcp_Ip_Gateway ni = IP_String gw.
Proof.
  induction count as [|count IH]; intros i acc hw g g'.
  - simpl. intros [= <- <-]. exists []. rewrite (right_id_L [] (++)).
    repeat split; try done; constructor.
  - cbn [GenerateHardware_loop].
    destruct (testCIDRs_at_mod i) as (cidr & -> & Hcidr & Hne). simpl.
    unfold GenerateHardwareInterface. rewrite bool_decide_eq_false_2 by done.
    destruct (GenerateHardwareInterface_with cidr g)
      as [[[ni|err] g1]| |] eqn:Hni; simpl; [|done..].
    intros Hloop.
    apply GenerateHardwareInterface_with_Ok in Hni as (Hnext & Hget & Hints).
    apply IH in Hloop
      as (new & -> & Hlen & Hnodup & Hall & Hgrow & Hints' & Hcycle).
    apply Get_Ok in Hget as (Hmac & Hfresh & Hm1).
    apply nextAddressFromCIDR_Ok in Hnext
      as (network & gw & Hparse & Hgw & Hmask & Hgateway & _).
    exists (ni :: new). rewrite <- (assoc_L (++)).
    split; [done|]. split; [by rewrite <- Hlen|].
    rewrite Forall_forall in Hall.
    split; [|split; [|split; [|split]]].
    + rewrite fmap_cons. constructor; [|done].
      intros (ni' & Heq & Hin)%list_elem_of_fmap.
      destruct (Hall ni' Hin) as (_ & Hnot & _). apply Hnot.
      rewrite Hm1, <- Heq. set_solver.
    + constructor.
      * split; [done|]. split; [done|]. apply Hgrow. rewrite Hm1. set_solver.
      * apply Forall_forall. intros ni' Hin.
        destruct (Hall ni' Hin) as (? & Hnot & ?).
        split; [done|]. split; [|done]. intros Hold. apply Hnot.
        rewrite Hm1. set_solver.
    + rewrite Hm1 in Hgrow. set_solver.
    + congruence.
    + intros [|k] ni'; simpl.
      * intros [= <-]. exists cidr, network, gw.
        by rewrite Z.add_0_r.
      * intros Hk. destruct (Hcycle k ni' Hk) as (c & n & w & Hc & Hrest).
        exists c, n, w. split; [|done]. rewrite <- Hc. do 3 f_equal. lia.
Qed.

(** X18. When [GenerateHardware] returns the hardware, it has exactly the
    number of interfaces asked for (none for a number that is not
    positive), their MAC addresses are pairwise distinct, fresh for the
    generator and of the unicast local kind, and no outcome of [rand.Int]
    was used. *)
Theorem GenerateHardware_interfaces `{NetLib} (numInterfaces : Z)
    (g g' : generators) (hw : list Interface) :
  GenerateHardware numInterfaces g = Returns (Ok hw, g') →
  length hw = Z.to_nat numInterfaces
  ∧ (numInterfaces ≤ 0 → hw = [] ∧ g' = g)
  ∧ NoDup (Dhcp_Mac <$> hw)
  ∧ Forall (λ ni, unicast_local_mac (Dhcp_Mac ni)
                  ∧ (Dhcp_Mac ni ∉ addresses (gen_MACGenerator g))
                  ∧ Dhcp_Mac ni ∈ addresses (gen_MACGenerator g')) hw
  ∧ gen_ints g' = gen_ints g.
Proof.
  unfold GenerateHardware. intros Hrun. split; [|split].
  - by apply GenerateHardware_loop_Ok in Hrun as (new & -> & ? & _).
  - intros Hn. replace (Z.to_nat numInterfaces) with 0%nat in Hrun by lia.
    simpl in Hrun. by injection Hrun as <- <-.
  - by apply GenerateHardware_loop_Ok
      in Hrun as (new & -> & _ & ? & ? & _ & ? & _).
Qed.

(** X19. The interfaces that [GenerateHardware] returns go round the three
    test CIDRs: the interface number [k] has the netmask and the gateway
    (the network address with its last octet one up) of the test CIDR
    number [k mod 3]. *)
Theorem GenerateHardware_round_robin `{NetLib} (numInterfaces : Z)
    (g g' : generators) (hw : list Interface) (k : nat) (ni : Interface) :
  GenerateHardware numInterfaces g = Returns (Ok hw, g') →
  hw !! k = Some ni →
  ∃ cidr network gw,
    testCIDRs !! (k mod 3)%nat = Some cidr
    ∧ ParseCIDR cidr = Ok network
    ∧ incr_last (IPNet_IP network) = Returns gw
    ∧ Dhcp_Ip_Netmask ni = IP_String (IPNet_Mask network)
    ∧ Dhcp_Ip_Gateway ni = IP_String gw.
Proof.
  unfold GenerateHardware. intros Hrun Hk.
  apply GenerateHardware_loop_Ok in Hrun as (new & -> & _ & _ & _ & _ & _ & Hc).
  destruct (Hc k ni Hk) as (cidr & network & gw & Hcidr & Hrest).
  exists cidr, network, gw. split; [|done]. rewrite <- Hcidr. f_equal.
  rewrite Z.add_0_l.
  change 3 with (Z.of_nat 3). rewrite <- Nat2Z.inj_mod. by rewrite Nat2Z.id.
Qed.

End HardwareProperties.

(** * Runs of the added properties *)

Section MoreRuns.
Import Fake Generators.

(** The first pass over ["wf-1"]: it is created as ["R1"]. *)
Lemma Reconcile_create_after_lookups_witness :
  ∃ wf hw tpl,
    precedes (CallGetWorkflow (req_NamespacedName req1) (Ok wf))
      (CallTinkCreate "T1" "H1" (Ok "R1")) (trace (Reconcile req1 (world1 wf1)))
    ∧ TinkID wf = ""
    ∧ precedes
        (CallGetHardware (ObjectKey_of_name (Spec_HardwareRef wf)) (Ok hw))
        (CallTinkCreate "T1" "H1" (Ok "R1"))
        (trace (Reconcile req1 (world1 wf1)))
    ∧ precedes
        (CallGetTemplate (ObjectKey_of_name (Spec_TemplateRef wf)) (Ok tpl))
        (CallTinkCreate "T1" "H1" (Ok "R1"))
        (trace (Reconcile req1 (world1 wf1)))
    ∧ "T1" = Template_TinkID tpl
    ∧ "H1" = Hardware_Spec_ID hw.
Proof.
  apply (Reconcile_create_after_lookups req1 (world1 wf1) "T1" "H1" (Ok "R1")).
  vm_compute. elem_here.
Defined.

(** A pass over ["wf-1"] when its hardware is not in the store. *)
Lemma Reconcile_lookup_failure_witness :
  outcome (Reconcile req1 (without_hardware (world1 wf1)))
    = (Result_zero,
       Some (Errorf "failed to get hardware"
               (StatusError StatusReasonNotFound)))
  ∧ create_count (trace (Reconcile req1 (without_hardware (world1 wf1))))
    = 0%nat.
Proof.
  apply (proj1 (Reconcile_lookup_failure req1 (without_hardware (world1 wf1))
                  (ObjectKey_of_name "hw-1")
                  (StatusError StatusReasonNotFound))).
  vm_compute. elem_here.
Defined.

(** A pass over ["wf-1"] while it is being deleted. *)
Lemma Reconcile_paths_exclusive_witness :
  (DeletionTimestamp_IsZero wf1_deleting = false →
   ∀ c, c ∈ trace (Reconcile req1 gone) → remote_call c = true →
        TinkID wf1_deleting ≠ ""
        ∧ ∃ derr, c = CallTinkDelete (TinkID wf1_deleting) derr)
  ∧ (DeletionTimestamp_IsZero wf1_deleting = true →
     ∀ c, c ∈ trace (Reconcile req1 gone) → delete_call c = false).
Proof.
  apply (Reconcile_paths_exclusive req1 gone wf1_deleting).
  vm_compute. elem_here.
Defined.

(** X3 at ["wf-1"], where the remote service refuses to create. *)
Lemma Reconcile_create_single_attempt_witness :
  let world := failing_Create unavailable (world1 wf1) in
  outcome (Reconcile req1 world)
    = (Result_zero, Some (Errorf "failed to create workflow" unavailable))
  ∧ last (trace (Reconcile req1 world))
    = Some (CallLogError unavailable "Failed to create workflow")
  ∧ ∃ pre,
      trace (Reconcile req1 world)
      = (pre ++ [CallTinkCreate "T1" "H1" (Err unavailable);
                 CallLogError unavailable "Failed to create workflow"])%list
      ∧ create_count pre = 0%nat.
Proof.
  apply (proj2 (Reconcile_create_single_attempt req1
                  (failing_Create unavailable (world1 wf1)))
           "T1" "H1" unavailable).
  vm_compute. elem_here.
Defined.

(** X6 at ["wf-1"]: a pass that reaches the status sync, a pass whose
    [Get] fails, and a pass over ["wf-1"] with its id whose patch fails. *)
Lemma Reconcile_id_recorded_before_sync_witness :
  (∃ id tw w,
     precedes (CallTinkGet id (Ok tw))
       (CallTinkGetState "R1" (Ok State_STATE_PENDING))
       (trace (Reconcile req1 (world1 wf1)))
     ∧ precedes (CallPatch (SetTinkID id w) w None)
         (CallTinkGetState "R1" (Ok State_STATE_PENDING))
         (trace (Reconcile req1 (world1 wf1))))
  ∧ (let world := failing_Get unavailable (world1 wf1) in
     outcome (Reconcile req1 world)
       = (Result_zero, Some (Errorf "failed to get workflow" unavailable))
     ∧ last (trace (Reconcile req1 world))
       = Some (CallTinkGet "R1" (Err unavailable))
     ∧ no_status_call (trace (Reconcile req1 world)))
  ∧ (let world :=
       failing_Patch unavailable
         (world_of wf1_R1 (R1_in State_STATE_RUNNING)) in
     (∃ msg, outcome (Reconcile req1 world)
             = (Result_zero, Some (Errorf msg unavailable)))
     ∧ no_status_call (trace (Reconcile req1 world))
     ∧ ∃ pre post,
         trace (Reconcile req1 world)
         = (pre ++ CallPatch (SetTinkID "R1" wf1_R1) wf1_R1 (Some unavailable)
              :: post)%list
         ∧ (post = []
            ∨ post = [CallLogError unavailable "Failed to patch workflow"])).
Proof.
  split; [|split].
  - apply (proj1 (Reconcile_id_recorded_before_sync req1 (world1 wf1))
             (CallTinkGetState "R1" (Ok State_STATE_PENDING))).
    + vm_compute. elem_here.
    + reflexivity.
  - apply (proj1 (proj2 (Reconcile_id_recorded_before_sync req1
                           (failing_Get unavailable (world1 wf1))))
             "R1" unavailable).
    vm_compute. elem_here.
  - apply (proj2 (proj2 (Reconcile_id_recorded_before_sync req1
                           (failing_Patch unavailable
                              (world_of wf1_R1 (R1_in State_STATE_RUNNING)))))
             (SetTinkID "R1" wf1_R1) wf1_R1 unavailable).
    vm_compute. elem_here.
Defined.

Lemma Reconcile_status_of_fetched_execution_witness :
  (∀ c id', c ∈ trace (Reconcile req1 (world1 wf1)) → fetch_id c = Some id' →
            id' = GetId {| GetId := "R1"; GetData := "" |})
  ∧ (∀ obj base perr,
       CallStatusPatch obj base perr ∈ trace (Reconcile req1 (world1 wf1)) →
       Status_Data (Status obj) = GetData {| GetId := "R1"; GetData := "" |}).
Proof.
  apply (Reconcile_status_of_fetched_execution req1 (world1 wf1) "R1"
           {| GetId := "R1"; GetData := "" |}).
  vm_compute. elem_here.
Defined.

Lemma Reconcile_normal_keeps_finalizer_witness :
  DeletionTimestamp_IsZero wf1 = true
  ∧ ∀ c obj, c ∈ trace (Reconcile req1 (world1 wf1)) →
             patched_object c = Some obj →
             WorkflowFinalizer ∈ Finalizers obj.
Proof.
  split; [reflexivity|].
  apply (Reconcile_normal_keeps_finalizer req1 (world1 wf1) wf1).
  - vm_compute. elem_here.
  - reflexivity.
Defined.

Lemma Reconcile_keeps_identity_witness :
  TinkID wf1_R1 ≠ ""
  ∧ ∀ c obj,
      c ∈ trace (Reconcile req1 (world_of wf1_R1 (R1_in State_STATE_RUNNING))) →
      patched_object c = Some obj →
      Name obj = Name wf1_R1
      ∧ DeletionTimestamp obj = DeletionTimestamp wf1_R1
      ∧ Spec_HardwareRef obj = Spec_HardwareRef wf1_R1
      ∧ Spec_TemplateRef obj = Spec_TemplateRef wf1_R1
      ∧ (TinkID wf1_R1 ≠ "" → TinkID obj = TinkID wf1_R1).
Proof.
  split; [vm_compute; discriminate|].
  apply (Reconcile_keeps_identity req1
           (world_of wf1_R1 (R1_in State_STATE_RUNNING)) wf1_R1).
  vm_compute. elem_here.
Defined.

(** Reads of [crypto/rand]: the second draws the address of the first. *)
Lemma Get_address_text_witness :
  String.length "fe:00:01:02:03:ab" = 17%nat
  ∧ (∀ i, i ∈ colon_places →
          String.get i "fe:00:01:02:03:ab" = Some ":"%char)
  ∧ (∀ i c, String.get i "fe:00:01:02:03:ab" = Some c → i ∉ colon_places →
            c ∈ list_ascii_of_string hexDigit).
Proof.
  apply (Get_address_text [ReadFills 255 0 1 2 3 171] [] MACGenerator
           {| addresses := {["fe:00:01:02:03:ab"]} ∪ ∅ |}).
  vm_compute; reflexivity.
Defined.

Lemma nextAddressFromCIDR_records_witness :
  let i' := {| ip_addresses := {["192.0.2.0/24" := "192.0.2.2"]} |} in
  (∀ other, other ≠ "192.0.2.0/24" →
            ip_addresses i' !! other = ip_addresses IPGetter !! other)
  ∧ (ip_addresses i' !! "192.0.2.0/24" = Some "192.0.2.2"
     ∧ ∀ j j' ip2 netmask2 gateway2,
         nextAddressFromCIDR "192.0.2.0/24" j
           = Returns (Ok (ip2, netmask2, gateway2), j') →
         netmask2 = "255.255.255.0" ∧ gateway2 = "192.0.2.1").
Proof.
  apply (nextAddressFromCIDR_records (H := Dotted.net) "192.0.2.0/24" IPGetter
           {| ip_addresses := {["192.0.2.0/24" := "192.0.2.2"]} |}
           (Ok ("192.0.2.2", "255.255.255.0", "192.0.2.1"))).
  vm_compute; reflexivity.
Defined.

Lemma nextAddressFromCIDR_sequence_witness :
  ∃ i',
    nextAddressFromCIDR_times 3 "192.0.2.0/24" IPGetter
    = Returns ((λ k : nat,
                  Ok (IP_String [192; 0; 2; (0 + 2 + Z.of_nat k) mod 256],
                      IP_String Dotted.mask24,
                      IP_String [192; 0; 2; (0 + 1) mod 256]))
                 <$> seq 0 3, i').
Proof.
  apply (nextAddressFromCIDR_sequence (H := Dotted.net) "192.0.2.0/24"
           {| IPNet_IP := [192; 0; 2; 0]; IPNet_Mask := Dotted.mask24 |}
           192 0 2 0 3 IPGetter).
  - reflexivity.
  - reflexivity.
  - repeat (apply Forall_cons; split; [lia|]). apply Forall_nil_2.
  - reflexivity.
Defined.

Lemma nextAddressFromCIDR_wraps_witness :
  ∃ rs i' gateway netmask,
    nextAddressFromCIDR_times 257 "192.0.2.0/24" IPGetter = Returns (rs, i')
    ∧ rs !! 255%nat = Some (Ok (gateway, netmask, gateway))
    ∧ rs !! 256%nat = rs !! 0%nat.
Proof.
  apply (nextAddressFromCIDR_wraps (H := Dotted.net) "192.0.2.0/24"
           {| IPNet_IP := [192; 0; 2; 0]; IPNet_Mask := Dotted.mask24 |}
           192 0 2 0 IPGetter).
  - reflexivity.
  - reflexivity.
  - repeat (apply Forall_cons; split; [lia|]). apply Forall_nil_2.
  - reflexivity.
Defined.

(** The address is taken, then the read for the MAC address fails. *)
Lemma GenerateHardwareInterface_failures_witness :
  GenerateHardwareInterface "192.0.2.0/24"
    (Dotted.start [] [ReadFails Fake.unavailable])
  = Returns (Err (Errorf "failed to generate random mac" Fake.unavailable),
             mkGenerators
               {| ip_addresses := {["192.0.2.0/24" := "192.0.2.2"]} |}
               MACGenerator [] [])
  ∧ ip_addresses {| ip_addresses := {["192.0.2.0/24" := "192.0.2.2"]} |}
      !! "192.0.2.0/24" = Some "192.0.2.2".
Proof.
  apply (proj2 (proj2 (GenerateHardwareInterface_failures (H := Dotted.net)
                         "192.0.2.0/24"
                         (Dotted.start [] [ReadFails Fake.unavailable])))
           "192.0.2.2" "255.255.255.0" "192.0.2.1"
           {| ip_addresses := {["192.0.2.0/24" := "192.0.2.2"]} |}
           (Errorf "failed to generate random mac" Fake.unavailable)
           MACGenerator []).
  - discriminate.
  - vm_compute; reflexivity.
  - vm_compute; reflexivity.
Defined.

Lemma GenerateHardwareInterface_random_cidr_witness :
  let g := Dotted.start [IntReturns 1] [ReadFills 255 0 1 2 3 171] in
  let g' := mkGenerators (gen_IPGetter g) (gen_MACGenerator g) []
              (gen_reads g) in
  (0 ≤ 1 < 3 →
   ∃ cidr, testCIDRs !! Z.to_nat 1 = Some cidr
           ∧ GenerateHardwareInterface "" g
             = GenerateHardwareInterface cidr g')
  ∧ (¬ 0 ≤ 1 < 3 → GenerateHardwareInterface "" g = Panics).
Proof.
  apply (GenerateHardwareInterface_random_cidr (H := Dotted.net)
           (Dotted.start [IntReturns 1] [ReadFills 255 0 1 2 3 171]) 1 []).
  reflexivity.
Defined.

(** Four interfaces. *)
Lemma GenerateHardware_interfaces_witness :
  length Dotted.four_interfaces = Z.to_nat 4
  ∧ (4 ≤ 0 → Dotted.four_interfaces = [] ∧ Dotted.after_four = Dotted.start [] Dotted.four_reads)
  ∧ NoDup (Dhcp_Mac <$> Dotted.four_interfaces)
  ∧ Forall (λ ni, unicast_local_mac (Dhcp_Mac ni)
                  ∧ (Dhcp_Mac ni
                     ∉ addresses (gen_MACGenerator (Dotted.start [] Dotted.four_reads)))
                  ∧ Dhcp_Mac ni ∈ addresses (gen_MACGenerator Dotted.after_four))
      Dotted.four_interfaces
  ∧ gen_ints Dotted.after_four = gen_ints (Dotted.start [] Dotted.four_reads).
Proof.
  apply (GenerateHardware_interfaces (H := Dotted.net) 4
           (Dotted.start [] Dotted.four_reads) Dotted.after_four Dotted.four_interfaces).
  vm_compute; reflexivity.
Defined.

Lemma GenerateHardware_round_robin_witness :
  ∃ cidr network gw,
    testCIDRs !! (3 mod 3)%nat = Some cidr
    ∧ ParseCIDR cidr = Ok network
    ∧ incr_last (IPNet_IP network) = Returns gw
    ∧ "255.255.255.0" = IP_String (IPNet_Mask network)
    ∧ "192.0.2.1" = IP_String gw.
Proof.
  apply (GenerateHardware_round_robin (H := Dotted.net) 4
           (Dotted.start [] Dotted.four_reads) Dotted.after_four Dotted.four_interfaces 3
           (mkInterface "22:10:01:02:03:ab" "192.0.2.3" "255.255.255.0"
              "192.0.2.1")).
  - vm_compute; reflexivity.
  - reflexivity.
Defined.

End MoreRuns.
